(** * bsock: the session layer of [lib/socket.js]

    A shallow embedding of the [Socket] class of [lib/socket.js] and the
    properties of its session state machine, packet dispatch, RPC
    correlation and liveness timer.

    The session is a record; every method is a computation in a state and
    exception monad over a [World] that holds the session, the clock read
    by [Date.now()] and the log of the effects the method performed on its
    collaborators (transport, promises, event emitters).  Each logged effect
    is paired with the session as it was when the effect was performed, so
    that "X happens before Y is invoked" is a statement about the log.

    The [async] methods are run to completion: a handler awaited by
    [handleCall] returns or throws before the next frame is handled.  The
    listeners of the session's own events ([open], [close], [error]) belong
    to the application: the session records which events have a listener,
    [emit] is recorded in the log, and an [error] event that nobody listens
    to is thrown, as [EventEmitter] does; a listener itself returns. *)

From stdpp Require Import base gmap strings list pretty.
From Stdlib Require Import ZArith Lia.

Local Open Scope string_scope.
Local Open Scope Z_scope.

(** ** JavaScript values *)

(** Function values.  The two capabilities of a promise created by [call]
    and the functions supplied by the application. *)
Inductive Fn :=
| PromiseResolve (p : nat)
| PromiseReject (p : nat)
| UserFn (n : nat).

Inductive ErrorKind := KError | KTypeError | KAssertionError.

(** JSON-like values, [undefined], functions and [Error] objects.  Numbers
    are the integers; an [Error] object has its [message] and the own
    properties assigned to it after construction. *)
#[warnings="-register-all"]
Inductive JsVal :=
| VUndef
| VNull
| VBool (b : bool)
| VNum (n : Z)
| VStr (s : string)
| VArr (l : list JsVal)
| VObj (props : list (string * JsVal))
| VFun (f : Fn)
| VErr (k : ErrorKind) (msg : string) (props : list (string * JsVal)).

Inductive JsType :=
| TUndefined | TObject | TBoolean | TNumber | TString | TFunction.

Definition typeof (v : JsVal) : JsType :=
  match v with
  | VUndef => TUndefined
  | VNull => TObject
  | VBool _ => TBoolean
  | VNum _ => TNumber
  | VStr _ => TString
  | VArr _ => TObject
  | VObj _ => TObject
  | VFun _ => TFunction
  | VErr _ _ _ => TObject
  end.

Definition is_string (v : JsVal) : bool :=
  match v with VStr _ => true | _ => false end.

Definition is_number (v : JsVal) : bool :=
  match v with VNum _ => true | _ => false end.

Definition is_function (v : JsVal) : bool :=
  match v with VFun _ => true | _ => false end.

(** [typeof v === 'object'] *)
Definition is_object (v : JsVal) : bool :=
  match typeof v with TObject => true | _ => false end.

(** [Array.isArray(v)] *)
Definition isArray (v : JsVal) : bool :=
  match v with VArr _ => true | _ => false end.

(** [v == null] *)
Definition is_nullish (v : JsVal) : bool :=
  match v with VUndef | VNull => true | _ => false end.

Definition truthy (v : JsVal) : bool :=
  match v with
  | VUndef | VNull => false
  | VBool b => b
  | VNum n => negb (n =? 0)
  | VStr s => negb (String.eqb s "")
  | _ => true
  end.

Fixpoint assoc (k : string) (ps : list (string * JsVal)) : JsVal :=
  match ps with
  | [] => VUndef
  | (k', v) :: ps' => if String.eqb k k' then v else assoc k ps'
  end.

(** Property read [v.k] on a value that is not [null] or [undefined]. *)
Definition get_prop (v : JsVal) (k : string) : JsVal :=
  match v with
  | VObj ps => assoc k ps
  | VErr _ msg ps => if String.eqb k "message" then VStr msg else assoc k ps
  | _ => VUndef
  end.

(** [new Error(msg)] *)
Definition new_Error (msg : string) : JsVal := VErr KError msg [].

(** ** Helpers of the source file *)

Definition castCode (code : JsVal) : JsVal :=
  if negb (match code with VNull => true | _ => false end)
     && negb (is_number code)
     && negb (is_string code)
  then VNull
  else code.

Definition castMsg (msg : JsVal) : JsVal :=
  if negb (is_string msg) then VStr "No message." else msg.

Definition castType (type : JsVal) : JsVal :=
  if negb (is_string type) then VNull else type.

(** The string inside a value known to be a string. *)
Definition str_of (v : JsVal) : string :=
  match v with VStr s => s | _ => "" end.

(** ** Frames and packets *)

(** Modelled from the spec: the frame types of [lib/frame.js]; a frame of
    any other type is an unknown frame. *)
Inductive FrameType :=
| OPEN | CLOSE | PING | PONG | MESSAGE | UPGRADE | NOOP
| UNKNOWN_FRAME (n : Z).

(** What a frame carries: text, bytes, or nothing ([sendPing()] and the like
    pass [undefined]). *)
Inductive FData :=
| DUndef
| DText (s : string)
| DBin (b : list Byte.byte).

(** Modelled from the spec: a frame of [lib/frame.js], with the fields
    [type], [data] and [binary]. *)
Record Frame := mkFrame {
  frame_type : FrameType;
  frame_data : FData;
  frame_binary : bool }.

(** Modelled from the spec: the packet types of [lib/packet.js]. *)
Inductive PacketType :=
| CONNECT | DISCONNECT | EVENT | ACK | ERROR | BINARY_EVENT | BINARY_ACK
| UNKNOWN_PACKET (n : Z).

(** Modelled from the spec: a packet of [lib/packet.js], of which the
    session uses the fields [type], [id] (-1 = none), [attachments],
    [buffers] and the decoded payload read by [getData] and written by
    [setData].  The values of the model hold no binary blobs, so that
    [setData] extracts no attachment. *)
Record Packet := mkPacket {
  packet_type : PacketType;
  packet_id : Z;
  attachments : Z;
  buffers : list FData;
  payload : JsVal }.

(** Modelled from the spec: [new Packet(type)], without id, attachments or
    data. *)
Definition new_Packet (t : PacketType) : Packet :=
  mkPacket t (-1) 0 [] VNull.

(** Modelled from the spec: [packet.getData()], the decoded payload. *)
Definition getData (p : Packet) : JsVal := payload p.

(** Modelled from the spec: [packet.setData(data)]. *)
Definition setData (data : JsVal) (p : Packet) : Packet :=
  mkPacket (packet_type p) (packet_id p) (attachments p) (buffers p) data.

Definition set_packet_type (t : PacketType) (p : Packet) : Packet :=
  mkPacket t (packet_id p) (attachments p) (buffers p) (payload p).

Definition set_packet_id (id : Z) (p : Packet) : Packet :=
  mkPacket (packet_type p) id (attachments p) (buffers p) (payload p).

Definition push_buffer (d : FData) (p : Packet) : Packet :=
  mkPacket (packet_type p) (packet_id p) (attachments p)
           (buffers p ++ [d]) (payload p).

(** ** The session *)

Record Job := mkJob {
  job_resolve : Fn;
  job_reject : Fn;
  job_time : Z }.

(** The callbacks of a transport: unset, the session's handlers installed by
    [bind], or the empty functions installed by [close]. *)
Inductive Callback := CbUnset | CbSession | CbNoop.

Record WebSocket := mkWs {
  ws_id : nat;
  onopen : Callback;
  onmessage : Callback;
  onerror : Callback;
  onclose : Callback }.

(** A listener of the session's own events ([Socket] extends
    [EventEmitter]): one registered by the application, or the empty
    function that [destroy] registers for [error]. *)
Inductive Listener :=
| Application (f : Fn)
| Swallow.

Record Socket := mkSocket {
  ws : option WebSocket;
  url : string;
  inbound : bool;
  connected : bool;
  challenge : bool;
  destroyed : bool;
  time : Z;
  sequence : Z;
  pingInterval : Z;
  pingTimeout : Z;
  lastPing : Z;
  binary : bool;
  packet : option Packet;
  timer : option nat;
  jobs : list (Z * Job);
  hooks : gmap string Fn;
  channels : gset string;
  events : list (string * Fn);
  buffer : list Frame;
  (** the listeners of the emitter the session inherits from *)
  listeners : list (string * Listener) }.

(** The constructor. *)
Definition new_Socket : Socket :=
  {| ws := None;
     url := "ws://127.0.0.1:80/socket.io/?transport=websocket";
     inbound := false; connected := false; challenge := false;
     destroyed := false; time := 0; sequence := 0;
     pingInterval := 25000; pingTimeout := 60000; lastPing := 0;
     binary := false; packet := None; timer := None; jobs := [];
     hooks := ∅; channels := ∅; events := []; buffer := [];
     listeners := [] |}.

(** Field updates: [set_f v s] is [s] after the assignment [this.f = v]. *)
Definition set_ws (v : option WebSocket) (s : Socket) : Socket :=
  {| ws := v; url := url s; inbound := inbound s; connected := connected s;
     challenge := challenge s; destroyed := destroyed s; time := time s;
     sequence := sequence s; pingInterval := pingInterval s;
     pingTimeout := pingTimeout s; lastPing := lastPing s;
     binary := binary s; packet := packet s; timer := timer s;
     jobs := jobs s; hooks := hooks s; channels := channels s;
     events := events s; buffer := buffer s; listeners := listeners s |}.

Definition set_url (v : string) (s : Socket) : Socket :=
  {| ws := ws s; url := v; inbound := inbound s; connected := connected s;
     challenge := challenge s; destroyed := destroyed s; time := time s;
     sequence := sequence s; pingInterval := pingInterval s;
     pingTimeout := pingTimeout s; lastPing := lastPing s;
     binary := binary s; packet := packet s; timer := timer s;
     jobs := jobs s; hooks := hooks s; channels := channels s;
     events := events s; buffer := buffer s; listeners := listeners s |}.

Definition set_inbound (v : bool) (s : Socket) : Socket :=
  {| ws := ws s; url := url s; inbound := v; connected := connected s;
     challenge := challenge s; destroyed := destroyed s; time := time s;
     sequence := sequence s; pingInterval := pingInterval s;
     pingTimeout := pingTimeout s; lastPing := lastPing s;
     binary := binary s; packet := packet s; timer := timer s;
     jobs := jobs s; hooks := hooks s; channels := channels s;
     events := events s; buffer := buffer s; listeners := listeners s |}.

Definition set_connected (v : bool) (s : Socket) : Socket :=
  {| ws := ws s; url := url s; inbound := inbound s; connected := v;
     challenge := challenge s; destroyed := destroyed s; time := time s;
     sequence := sequence s; pingInterval := pingInterval s;
     pingTimeout := pingTimeout s; lastPing := lastPing s;
     binary := binary s; packet := packet s; timer := timer s;
     jobs := jobs s; hooks := hooks s; channels := channels s;
     events := events s; buffer := buffer s; listeners := listeners s |}.

Definition set_challenge (v : bool) (s : Socket) : Socket :=
  {| ws := ws s; url := url s; inbound := inbound s;
     connected := connected s; challenge := v; destroyed := destroyed s;
     time := time s; sequence := sequence s;
     pingInterval := pingInterval s; pingTimeout := pingTimeout s;
     lastPing := lastPing s; binary := binary s; packet := packet s;
     timer := timer s; jobs := jobs s; hooks := hooks s;
     channels := channels s; events := events s; buffer := buffer s;
     listeners := listeners s |}.

Definition set_destroyed (v : bool) (s : Socket) : Socket :=
  {| ws := ws s; url := url s; inbound := inbound s;
     connected := connected s; challenge := challenge s; destroyed := v;
     time := time s; sequence := sequence s;
     pingInterval := pingInterval s; pingTimeout := pingTimeout s;
     lastPing := lastPing s; binary := binary s; packet := packet s;
     timer := timer s; jobs := jobs s; hooks := hooks s;
     channels := channels s; events := events s; buffer := buffer s;
     listeners := listeners s |}.

Definition set_time (v : Z) (s : Socket) : Socket :=
  {| ws := ws s; url := url s; inbound := inbound s;
     connected := connected s; challenge := challenge s;
     destroyed := destroyed s; time := v; sequence := sequence s;
     pingInterval := pingInterval s; pingTimeout := pingTimeout s;
     lastPing := lastPing s; binary := binary s; packet := packet s;
     timer := timer s; jobs := jobs s; hooks := hooks s;
     channels := channels s; events := events s; buffer := buffer s;
     listeners := listeners s |}.

Definition set_sequence (v : Z) (s : Socket) : Socket :=
  {| ws := ws s; url := url s; inbound := inbound s;
     connected := connected s; challenge := challenge s;
     destroyed := destroyed s; time := time s; sequence := v;
     pingInterval := pingInterval s; pingTimeout := pingTimeout s;
     lastPing := lastPing s; binary := binary s; packet := packet s;
     timer := timer s; jobs := jobs s; hooks := hooks s;
     channels := channels s; events := events s; buffer := buffer s;
     listeners := listeners s |}.

Definition set_pingInterval (v : Z) (s : Socket) : Socket :=
  {| ws := ws s; url := url s; inbound := inbound s;
     connected := connected s; challenge := challenge s;
     destroyed := destroyed s; time := time s; sequence := sequence s;
     pingInterval := v; pingTimeout := pingTimeout s;
     lastPing := lastPing s; binary := binary s; packet := packet s;
     timer := timer s; jobs := jobs s; hooks := hooks s;
     channels := channels s; events := events s; buffer := buffer s;
     listeners := listeners s |}.

Definition set_pingTimeout (v : Z) (s : Socket) : Socket :=
  {| ws := ws s; url := url s; inbound := inbound s;
     connected := connected s; challenge := challenge s;
     destroyed := destroyed s; time := time s; sequence := sequence s;
     pingInterval := pingInterval s; pingTimeout := v;
     lastPing := lastPing s; binary := binary s; packet := packet s;
     timer := timer s; jobs := jobs s; hooks := hooks s;
     channels := channels s; events := events s; buffer := buffer s;
     listeners := listeners s |}.

Definition set_lastPing (v : Z) (s : Socket) : Socket :=
  {| ws := ws s; url := url s; inbound := inbound s;
     connected := connected s; challenge := challenge s;
     destroyed := destroyed s; time := time s; sequence := sequence s;
     pingInterval := pingInterval s; pingTimeout := pingTimeout s;
     lastPing := v; binary := binary s; packet := packet s;
     timer := timer s; jobs := jobs s; hooks := hooks s;
     channels := channels s; events := events s; buffer := buffer s;
     listeners := listeners s |}.

Definition set_binary (v : bool) (s : Socket) : Socket :=
  {| ws := ws s; url := url s; inbound := inbound s;
     connected := connected s; challenge := challenge s;
     destroyed := destroyed s; time := time s; sequence := sequence s;
     pingInterval := pingInterval s; pingTimeout := pingTimeout s;
     lastPing := lastPing s; binary := v; packet := packet s;
     timer := timer s; jobs := jobs s; hooks := hooks s;
     channels := channels s; events := events s; buffer := buffer s;
     listeners := listeners s |}.

Definition set_packet (v : option Packet) (s : Socket) : Socket :=
  {| ws := ws s; url := url s; inbound := inbound s;
     connected := connected s; challenge := challenge s;
     destroyed := destroyed s; time := time s; sequence := sequence s;
     pingInterval := pingInterval s; pingTimeout := pingTimeout s;
     lastPing := lastPing s; binary := binary s; packet := v;
     timer := timer s; jobs := jobs s; hooks := hooks s;
     channels := channels s; events := events s; buffer := buffer s;
     listeners := listeners s |}.

Definition set_timer (v : option nat) (s : Socket) : Socket :=
  {| ws := ws s; url := url s; inbound := inbound s;
     connected := connected s; challenge := challenge s;
     destroyed := destroyed s; time := time s; sequence := sequence s;
     pingInterval := pingInterval s; pingTimeout := pingTimeout s;
     lastPing := lastPing s; binary := binary s; packet := packet s;
     timer := v; jobs := jobs s; hooks := hooks s; channels := channels s;
     events := events s; buffer := buffer s; listeners := listeners s |}.

Definition set_jobs (v : list (Z * Job)) (s : Socket) : Socket :=
  {| ws := ws s; url := url s; inbound := inbound s;
     connected := connected s; challenge := challenge s;
     destroyed := destroyed s; time := time s; sequence := sequence s;
     pingInterval := pingInterval s; pingTimeout := pingTimeout s;
     lastPing := lastPing s; binary := binary s; packet := packet s;
     timer := timer s; jobs := v; hooks := hooks s; channels := channels s;
     events := events s; buffer := buffer s; listeners := listeners s |}.

Definition set_hooks (v : gmap string Fn) (s : Socket) : Socket :=
  {| ws := ws s; url := url s; inbound := inbound s;
     connected := connected s; challenge := challenge s;
     destroyed := destroyed s; time := time s; sequence := sequence s;
     pingInterval := pingInterval s; pingTimeout := pingTimeout s;
     lastPing := lastPing s; binary := binary s; packet := packet s;
     timer := timer s; jobs := jobs s; hooks := v; channels := channels s;
     events := events s; buffer := buffer s; listeners := listeners s |}.

Definition set_channels (v : gset string) (s : Socket) : Socket :=
  {| ws := ws s; url := url s; inbound := inbound s;
     connected := connected s; challenge := challenge s;
     destroyed := destroyed s; time := time s; sequence := sequence s;
     pingInterval := pingInterval s; pingTimeout := pingTimeout s;
     lastPing := lastPing s; binary := binary s; packet := packet s;
     timer := timer s; jobs := jobs s; hooks := hooks s; channels := v;
     events := events s; buffer := buffer s; listeners := listeners s |}.

Definition set_events (v : list (string * Fn)) (s : Socket) : Socket :=
  {| ws := ws s; url := url s; inbound := inbound s;
     connected := connected s; challenge := challenge s;
     destroyed := destroyed s; time := time s; sequence := sequence s;
     pingInterval := pingInterval s; pingTimeout := pingTimeout s;
     lastPing := lastPing s; binary := binary s; packet := packet s;
     timer := timer s; jobs := jobs s; hooks := hooks s;
     channels := channels s; events := v; buffer := buffer s;
     listeners := listeners s |}.

Definition set_buffer (v : list Frame) (s : Socket) : Socket :=
  {| ws := ws s; url := url s; inbound := inbound s;
     connected := connected s; challenge := challenge s;
     destroyed := destroyed s; time := time s; sequence := sequence s;
     pingInterval := pingInterval s; pingTimeout := pingTimeout s;
     lastPing := lastPing s; binary := binary s; packet := packet s;
     timer := timer s; jobs := jobs s; hooks := hooks s;
     channels := channels s; events := events s; buffer := v;
     listeners := listeners s |}.

Definition set_listeners (v : list (string * Listener)) (s : Socket) : Socket :=
  {| ws := ws s; url := url s; inbound := inbound s;
     connected := connected s; challenge := challenge s;
     destroyed := destroyed s; time := time s; sequence := sequence s;
     pingInterval := pingInterval s; pingTimeout := pingTimeout s;
     lastPing := lastPing s; binary := binary s; packet := packet s;
     timer := timer s; jobs := jobs s; hooks := hooks s;
     channels := channels s; events := events s; buffer := buffer s;
     listeners := v |}.

(** ** Effects and the method monad *)

Inductive Encoding := Raw | Text.

(** What a method does to its collaborators. *)
Inductive Effect :=
| WsNew (w : nat) (u : string)                 (* new WebSocket(u) *)
| WsSend (w : nat) (enc : Encoding) (f : Frame)(* ws.send(f.toRaw() / f.toString()) *)
| WsClose (w : nat)                            (* ws.close() *)
| Emit (name : string) (args : list JsVal)     (* this.emit(name, ...args) *)
| EventsEmit (args : list JsVal)               (* this.events.emit(...args) *)
| Call (f : Fn) (args : list JsVal)            (* f(...args) *)
| SetInterval (t : nat)
| ClearTimeout (t : nat)
| RemoveAllListeners
| OnErrorSwallow.                              (* this.on('error', () => {}) *)

Record World := mkWorld {
  sock : Socket;
  clock : Z;
  fresh : nat;
  log : list (Socket * Effect) }.

Inductive Res (A : Type) :=
| Ok (a : A)
| Throw (e : JsVal).
Arguments Ok {A} a.
Arguments Throw {A} e.

Definition M (A : Type) : Type := World → Res A * World.

Definition ret {A} (a : A) : M A := λ w, (Ok a, w).

Definition andThen {A B} (m : M A) (k : A → M B) : M B :=
  λ w, match m w with
       | (Ok a, w') => k a w'
       | (Throw e, w') => (Throw e, w')
       end.

Definition throw {A} (e : JsVal) : M A := λ w, (Throw e, w).

(** [try { body } catch (e) { handler }]: the state changes made by [body]
    before it threw are kept. *)
Definition try_catch {A} (body : M A) (handler : JsVal → M A) : M A :=
  λ w, match body w with
       | (Ok a, w') => (Ok a, w')
       | (Throw e, w') => handler e w'
       end.

Notation "'let!' x ':=' c1 'in' c2" := (andThen c1 (λ x, c2))
  (at level 10, x name, c1 at level 100, c2 at level 200,
   format "'[v' 'let!'  x  ':='  c1  'in' '/' c2 ']'").
Notation "c1 >> c2" := (andThen c1 (λ _, c2))
  (at level 100, c2 at level 200, right associativity,
   format "'[v' c1  >> '/' c2 ']'").

Definition this : M Socket := λ w, (Ok (sock w), w).

Definition modify (f : Socket → Socket) : M unit :=
  λ w, (Ok tt, mkWorld (f (sock w)) (clock w) (fresh w) (log w)).

Definition effect (e : Effect) : M unit :=
  λ w, (Ok tt, mkWorld (sock w) (clock w) (fresh w) (log w ++ [(sock w, e)])).

Definition Date_now : M Z := λ w, (Ok (clock w), w).

Definition gensym : M nat :=
  λ w, (Ok (fresh w), mkWorld (sock w) (clock w) (S (fresh w)) (log w)).

Definition when (b : bool) (m : M unit) : M unit := if b then m else ret tt.

Fixpoint for_of {A} (l : list A) (body : A → M unit) : M unit :=
  match l with
  | [] => ret tt
  | x :: l' => body x >> for_of l' body
  end.

(** [enforce(value, name, type)] *)
Definition enforce (value : bool) (name type : string) : M unit :=
  if negb value
  then throw (VErr KTypeError ("'" +:+ name +:+ "' must be a(n) " +:+ type +:+ ".") [])
  else ret tt.

(** [assert(value, msg)]; for an assertion without message the text Node
    generates is not modelled and [msg] is empty. *)
Definition assert (value : bool) (msg : string) : M unit :=
  if negb value then throw (VErr KAssertionError msg []) else ret tt.

(** Property read that throws a [TypeError] on [null] and [undefined]. *)
Definition prop (v : JsVal) (k : string) : M JsVal :=
  if is_nullish v
  then throw (VErr KTypeError ("Cannot read properties of null or undefined") [])
  else ret (get_prop v k).

(** ** The job table: a JavaScript [Map], iterated in insertion order *)

Fixpoint Map_get (id : Z) (m : list (Z * Job)) : option Job :=
  match m with
  | [] => None
  | (k, j) :: m' => if k =? id then Some j else Map_get id m'
  end.

Definition Map_has (id : Z) (m : list (Z * Job)) : bool :=
  match Map_get id m with Some _ => true | None => false end.

Fixpoint Map_delete (id : Z) (m : list (Z * Job)) : list (Z * Job) :=
  match m with
  | [] => []
  | (k, j) :: m' => if k =? id then Map_delete id m' else (k, j) :: Map_delete id m'
  end.

Fixpoint Map_set (id : Z) (j : Job) (m : list (Z * Job)) : list (Z * Job) :=
  match m with
  | [] => [(id, j)]
  | (k, j') :: m' => if k =? id then (k, j) :: m' else (k, j') :: Map_set id j m'
  end.

(** Keys are unique, as in any [Map]. *)
Fixpoint Map_wf (m : list (Z * Job)) : bool :=
  match m with
  | [] => true
  | (k, _) :: m' => negb (Map_has k m') && Map_wf m'
  end.

(** ** External collaborators *)

(** The modules required by [socket.js] whose code is not part of it: the
    close-code table, the blacklist, the frame and packet codecs, JSON, and
    the functions of the application. *)
Record Extern := mkExtern {
  (** [codes[n]], [None] for [undefined] *)
  codes : Z → option string;
  (** truthiness of [blacklist[name]] *)
  blacklist : string → bool;
  Packet_fromString : FData → Res Packet;
  Packet_toString : Packet → string;
  JSON_parse : FData → Res JsVal;
  JSON_stringify : JsVal → string;
  (** [await f(...args)] for a function of the application *)
  apply_fn : Fn → list JsVal → Res JsVal;
  (** [events.emit(...args)] over the registered listeners; a listener may
      throw *)
  events_emit : list (string * Fn) → list JsVal → Res JsVal }.

(** ** The methods of [Socket] *)

Section Methods.

Context (X : Extern).

(** [this.listenerCount(name) > 0] *)
Definition has_listener (name : string) (s : Socket) : bool :=
  existsb (λ '(n, _), String.eqb n name) (listeners s).

(** What [emit('error', ...)] throws when nobody listens: the error itself,
    or an error that wraps the value (the text Node gives it is
    abbreviated). *)
Definition unhandled_error (args : list JsVal) : JsVal :=
  match args with
  | VErr k msg props :: _ => VErr k msg props
  | v :: _ => VErr KError "Unhandled error." [("context", v)]
  | [] => VErr KError "Unhandled error." [("context", VUndef)]
  end.

(** [this.emit(name, ...args)], inherited from [EventEmitter]: the
    listeners are called, and an [error] event without listener is
    thrown. *)
Definition emit (name : string) (args : list JsVal) : M unit :=
  effect (Emit name args) >>
  let! s := this in
  if String.eqb name "error" && negb (has_listener "error" s)
  then throw (unhandled_error args)
  else ret tt.

(** [this.on(name, listener)], inherited as well; the [newListener] event
    that precedes the registration is left out. *)
Definition on (name : string) (l : Listener) : M unit :=
  modify (λ s, set_listeners (listeners s ++ [(name, l)]) s).

(** [this.removeAllListeners()] *)
Definition removeAllListeners : M unit :=
  effect RemoveAllListeners >>
  modify (set_listeners []).

(** [this.on('error', () => {})] *)
Definition on_error_swallow : M unit :=
  effect OnErrorSwallow >>
  on "error" Swallow.

Definition error (msg : string) : M unit :=
  emit "error" [new_Error msg].

(** *** Send path *)

Definition send (frame : Frame) : M unit :=
  let! s := this in
  if negb (connected s) then
    modify (set_buffer (buffer s ++ [frame]))
  else
    assert (bool_decide (is_Some (ws s))) "" >>
    match ws s with
    | Some w =>
        if frame_binary frame && binary s
        then effect (WsSend (ws_id w) Raw frame)
        else effect (WsSend (ws_id w) Text frame)
    | None => ret tt
    end.

Definition sendFrame (type : FrameType) (data : FData) (bin : bool) : M unit :=
  send (mkFrame type data bin).

Definition sendOpen (data : FData) : M unit := sendFrame OPEN data false.
Definition sendClose (data : FData) : M unit := sendFrame CLOSE data false.
Definition sendPing (data : FData) : M unit := sendFrame PING data false.
Definition sendPong (data : FData) : M unit := sendFrame PONG data false.
Definition sendMessage (data : FData) : M unit := sendFrame MESSAGE data false.
Definition sendBinary (data : FData) : M unit := sendFrame MESSAGE data true.

Definition sendHandshake : M unit :=
  let! s := this in
  let handshake := JSON_stringify X (VObj
    [("sid", VStr "00000000000000000000");
     ("upgrades", VArr []);
     ("pingInterval", VNum (pingInterval s));
     ("pingTimeout", VNum (pingTimeout s))]) in
  sendOpen (DText handshake).

Definition sendPacket (packet : Packet) : M unit :=
  sendMessage (DText (Packet_toString X packet)) >>
  for_of (buffers packet) sendBinary.

Definition sendConnect : M unit := sendPacket (new_Packet CONNECT).
Definition sendDisconnect : M unit := sendPacket (new_Packet DISCONNECT).

Definition sendEvent (data : JsVal) : M unit :=
  sendPacket (setData data (set_packet_type EVENT (new_Packet EVENT))).

Definition sendCall (id : Z) (data : JsVal) : M unit :=
  sendPacket (setData data (set_packet_id id (set_packet_type EVENT (new_Packet EVENT)))).

Definition sendAck (id : Z) (data : JsVal) : M unit :=
  sendPacket (setData (VArr [VNull; data])
               (set_packet_id id (set_packet_type ACK (new_Packet EVENT)))).

Definition sendError (id : Z) (err : JsVal) : M unit :=
  let! m := prop err "message" in
  let message := castMsg m in
  let! c := prop err "code" in
  let code := castCode c in
  let! t := prop err "type" in
  let type := castType t in
  let obj := VObj [("message", message); ("code", code); ("type", type)] in
  if id =? -1 then
    sendPacket (setData obj (set_packet_type ERROR (new_Packet EVENT)))
  else
    sendPacket (setData (VArr [obj])
                 (set_packet_id id (set_packet_type ACK (new_Packet EVENT)))).

(** *** Lifecycle *)

Definition noop_callbacks (w : WebSocket) : WebSocket :=
  mkWs (ws_id w) CbNoop CbNoop CbNoop CbNoop.

Definition session_callbacks (w : WebSocket) : WebSocket :=
  mkWs (ws_id w) CbSession CbSession CbSession CbSession.

(** [new WebSocket(url)] *)
Definition new_WebSocket (u : string) : M WebSocket :=
  let! n := gensym in
  effect (WsNew n u) >>
  ret (mkWs n CbUnset CbUnset CbUnset CbUnset).

Definition bind : M unit :=
  let! s := this in
  assert (bool_decide (is_Some (ws s))) "" >>
  match ws s with
  | Some w => modify (set_ws (Some (session_callbacks w)))
  | None => ret tt
  end.

(** [this.jobs.delete(id); job.reject(new Error('Job timed out.'));] *)
Definition reject_job (id : Z) (job : Job) : M unit :=
  modify (λ s, set_jobs (Map_delete id (jobs s)) s) >>
  effect (Call (job_reject job) [new_Error "Job timed out."]).

(** The loop deletes the entry it visits and no other, so that it visits
    the entries the table had when it started. *)
Definition close : M unit :=
  let! now := Date_now in
  modify (set_time now) >>
  modify (set_packet None) >>
  modify (set_connected false) >>
  modify (set_challenge false) >>
  modify (set_sequence 0) >>
  modify (set_lastPing 0) >>
  let! s := this in
  for_of (jobs s) (λ '(id, job), reject_job id job) >>
  let! s := this in
  match ws s with
  | None => ret tt
  | Some w =>
      modify (set_ws (Some (noop_callbacks w))) >>
      effect (WsClose (ws_id w))
  end.

Definition reconnect : M unit :=
  close >>
  let! s := this in
  let! w := new_WebSocket (url s) in
  modify (set_ws (Some w)) >>
  bind.

Definition start : M unit :=
  let! s := this in
  assert (bool_decide (is_Some (ws s))) "" >>
  assert (bool_decide (timer s = None)) "" >>
  let! t := gensym in
  effect (SetInterval t) >>
  modify (set_timer (Some t)).

Definition stop : M unit :=
  let! s := this in
  match timer s with
  | Some t => effect (ClearTimeout t) >> modify (set_timer None)
  | None => ret tt
  end.

Definition init : M unit :=
  let! now := Date_now in
  modify (set_time now) >>
  bind >>
  start.

Definition destroy : M unit :=
  let! s := this in
  if destroyed s then ret tt
  else
    modify (set_destroyed true) >>
    modify (set_buffer []) >>
    close >>
    stop >>
    emit "close" [] >>
    removeAllListeners >>
    on_error_swallow.

(** [if (this.inbound) { this.destroy(); return; } this.close();] *)
Definition destroy_or_close : M unit :=
  let! s := this in
  if inbound s then destroy else close.

(** [send] does not touch the buffer of a connected session, so the loop
    runs over the buffer as it was when the transport opened. *)
Definition onOpen : M unit :=
  modify (set_connected true) >>
  let! s := this in
  when (inbound s) (sendHandshake >> sendConnect) >>
  let! s := this in
  for_of (buffer s) send >>
  modify (set_buffer []) >>
  emit "open" [].

Definition onError (message : string) : M unit :=
  emit "error" [new_Error message] >>
  destroy_or_close.

Record CloseEvent := mkCloseEvent {
  ev_code : Z;
  ev_reason : string }.

(** [a || b] on strings *)
Definition or_str (a b : string) : string :=
  if String.eqb a "" then b else a.

Definition close_code_text (c : Z) : string :=
  match codes X c with
  | Some t => or_str t "UNKNOWN_CODE"
  | None => "UNKNOWN_CODE"
  end.

(** The error of an abnormal close; [event.code || 0] is [event.code] on
    numbers. *)
Definition close_error (event : CloseEvent) : JsVal :=
  let code := close_code_text (ev_code event) in
  let reason := or_str (ev_reason event) "Unknown reason" in
  let msg := "Websocket Closed: " +:+ reason +:+ " (code=" +:+ code +:+ ")." in
  VErr KError msg
    [("reason", VStr (or_str (ev_reason event) ""));
     ("code", VNum (ev_code event))].

Definition onClose (event : CloseEvent) : M unit :=
  if (ev_code event =? 1000) || (ev_code event =? 1001) then
    let! s := this in
    when (negb (connected s)) (emit "error" [new_Error "Could not connect."]) >>
    destroy_or_close
  else
    emit "error" [close_error event] >>
    destroy_or_close.

(** *** Liveness timer *)

Definition expire_job (now : Z) (id : Z) (job : Job) : M unit :=
  when (now - job_time job >? 600000) (reject_job id job).

Definition stall : M unit :=
  let! now := Date_now in
  let! s := this in
  assert (bool_decide (is_Some (ws s))) "" >>
  if negb (connected s) then
    if now - time s >? 10000 then
      error "Timed out waiting for connection." >>
      if inbound s then destroy else reconnect
    else ret tt
  else
    for_of (jobs s) (λ '(id, job), expire_job now id job) >>
    let! s := this in
    if negb (challenge s) then
      modify (set_challenge true) >>
      modify (set_lastPing now) >>
      sendPing DUndef
    else if now - lastPing s >? pingTimeout s then
      error "Connection is stalling (ping)." >>
      destroy_or_close
    else ret tt.

(** *** Packets *)

Definition handleConnect : M unit := ret tt.
Definition handleDisconnect : M unit := ret tt.

Definition handleEvent (args : list JsVal) : M unit :=
  let event := str_of (default VUndef (head args)) in
  try_catch
    (if blacklist X event then
       throw (new_Error ("Cannot emit blacklisted event: " +:+ event +:+ "."))
     else
       let! s := this in
       effect (EventsEmit args) >>
       match events_emit X (events s) args with
       | Ok _ => ret tt
       | Throw e => throw e
       end)
    (λ e, sendError (-1) e).

(** [if (result == null) result = null;] *)
Definition nullish_to_null (v : JsVal) : JsVal :=
  if is_nullish v then VNull else v.

(** The handler is awaited: [apply_fn] gives what it returns or throws. *)
Definition handleCall (id : Z) (args : list JsVal) : M unit :=
  let event := str_of (default VUndef (head args)) in
  let arg := tail args in
  let! s := this in
  match hooks s !! event with
  | None => throw (new_Error ("Call not found: " +:+ event +:+ "."))
  | Some handler =>
      effect (Call handler arg) >>
      match apply_fn X handler arg with
      | Throw e => sendError id e
      | Ok result => sendAck id (nullish_to_null result)
      end
  end.

Definition handleAck (id : Z) (data : JsVal) : M unit :=
  let! s := this in
  match Map_get id (jobs s) with
  | None => throw (new_Error ("Job not found for " +:+ pretty id +:+ "."))
  | Some job =>
      modify (set_jobs (Map_delete id (jobs s))) >>
      effect (Call (job_resolve job) [data])
  end.

(** [const e = new Error(msg); e.code = code; e.type = type;] *)
Definition rpc_error (msg code type : JsVal) : JsVal :=
  VErr KError (str_of msg) [("code", code); ("type", type)].

Definition handleError (id : Z) (err : JsVal) : M unit :=
  let! m := prop err "message" in
  let msg := castMsg m in
  let! c := prop err "code" in
  let code := castCode c in
  let! t := prop err "type" in
  let type := castType t in
  if id =? -1 then
    emit "error" [rpc_error msg code type]
  else
    let! s := this in
    match Map_get id (jobs s) with
    | None => throw (new_Error ("Job not found for " +:+ pretty id +:+ "."))
    | Some job =>
        modify (set_jobs (Map_delete id (jobs s))) >>
        effect (Call (job_reject job) [rpc_error msg code type])
    end.

(** [json[i]] guarded by [json && json.length > i], for [json] that is
    [null] or an array. *)
Definition ack_item (json : JsVal) (i : nat) : JsVal :=
  match json with
  | VArr l => default VNull (l !! i)
  | _ => VNull
  end.

Definition handlePacket (p : Packet) : M unit :=
  match packet_type p with
  | CONNECT => handleConnect
  | DISCONNECT => handleDisconnect
  | EVENT | BINARY_EVENT =>
      let args := getData p in
      enforce (isArray args) "args" "array" >>
      match args with
      | VArr l =>
          enforce (bool_decide (0 < length l)%nat) "args" "array" >>
          enforce (is_string (default VUndef (head l))) "event" "string" >>
          if negb (packet_id p =? -1)
          then handleCall (packet_id p) l
          else handleEvent l
      | _ => ret tt
      end
  | ACK | BINARY_ACK =>
      enforce (negb (packet_id p =? -1)) "id" "uint32" >>
      let json := getData p in
      enforce (is_nullish json || isArray json) "args" "array" >>
      let err := ack_item json 0 in
      let result := nullish_to_null (ack_item json 1) in
      if truthy err then
        enforce (is_object err) "error" "object" >>
        handleError (packet_id p) err
      else
        handleAck (packet_id p) result
  | ERROR =>
      let err := getData p in
      enforce (truthy err && is_object err) "error" "object" >>
      handleError (-1) err
  | UNKNOWN_PACKET _ => throw (new_Error "Unknown packet.")
  end.

(** *** Frames *)

Definition is_uint32 (v : JsVal) : bool :=
  match v with
  | VNum n => (0 <=? n) && (n <? 2 ^ 32)
  | _ => false
  end.

Definition num_of (v : JsVal) : Z :=
  match v with VNum n => n | _ => 0 end.

Definition handleOpen (frame : Frame) : M unit :=
  if frame_binary frame then throw (new_Error "Received a binary open frame.")
  else
    match JSON_parse X (frame_data frame) with
    | Throw e => throw e
    | Ok json =>
        enforce (truthy json && is_object json) "open" "object" >>
        let pi := get_prop json "pingInterval" in
        let pt := get_prop json "pingTimeout" in
        enforce (is_uint32 pi) "interval" "uint32" >>
        enforce (is_uint32 pt) "timeout" "uint32" >>
        modify (set_pingInterval (num_of pi)) >>
        modify (set_pingTimeout (num_of pt))
    end.

Definition handleClose (frame : Frame) : M unit :=
  let! s := this in
  if inbound s then sendClose DUndef >> destroy
  else sendClose DUndef >> close.

Definition handlePing : M unit := sendPong DUndef.

Definition handlePong : M unit :=
  let! s := this in
  if negb (challenge s) then
    error "Remote node sent bad pong." >>
    destroy
  else modify (set_challenge false).

Definition handleMessage (frame : Frame) : M unit :=
  let! s := this in
  match packet s with
  | Some p =>
      if negb (frame_binary frame) then
        throw (new_Error "Received non-binary frame as attachment.")
      else
        let p' := push_buffer (frame_data frame) p in
        modify (set_packet (Some p')) >>
        if Z.of_nat (length (buffers p')) =? attachments p' then
          modify (set_packet None) >>
          handlePacket p'
        else ret tt
  | None =>
      if frame_binary frame then
        throw (new_Error "Received binary frame as a message.")
      else
        match Packet_fromString X (frame_data frame) with
        | Throw e => throw e
        | Ok p =>
            if attachments p >? 0 then modify (set_packet (Some p))
            else handlePacket p
        end
  end.

Definition handleUpgrade (frame : Frame) : M unit :=
  throw (new_Error "Cannot upgrade from websocket.").

Definition handleNoop (frame : Frame) : M unit := ret tt.

Definition handleFrame (frame : Frame) : M unit :=
  match frame_type frame with
  | OPEN => handleOpen frame
  | CLOSE => handleClose frame
  | PING => handlePing
  | PONG => handlePong
  | MESSAGE => handleMessage frame
  | UPGRADE => handleUpgrade frame
  | NOOP => handleNoop frame
  | UNKNOWN_FRAME _ => throw (new_Error "Unknown frame.")
  end.

(** The parser's [frame] listener installed by [init]. *)
Definition onFrame (frame : Frame) : M unit :=
  try_catch (handleFrame frame) (λ e, emit "error" [e]).

(** *** API *)

Definition listen (event handler : JsVal) : M unit :=
  enforce (is_string event) "event" "string" >>
  enforce (is_function handler) "handler" "function" >>
  assert (negb (blacklist X (str_of event))) "Blacklisted event." >>
  match handler with
  | VFun f => modify (λ s, set_events (events s ++ [(str_of event, f)]) s)
  | _ => ret tt
  end.

Definition fire (args : list JsVal) : M unit :=
  enforce (bool_decide (0 < length args)%nat) "event" "string" >>
  enforce (is_string (default VUndef (head args))) "event" "string" >>
  sendEvent (VArr args).

Definition hook (event handler : JsVal) : M unit :=
  enforce (is_string event) "event" "string" >>
  enforce (is_function handler) "handler" "function" >>
  let! s := this in
  assert (negb (bool_decide (is_Some (hooks s !! str_of event)))) "Hook already bound." >>
  assert (negb (blacklist X (str_of event))) "Blacklisted event." >>
  match handler with
  | VFun f => modify (λ s, set_hooks (<[str_of event := f]> (hooks s)) s)
  | _ => ret tt
  end.

(** [x >>> 0] on an integer *)
Definition to_uint32 (x : Z) : Z := x mod 2 ^ 32.

(** [call] returns the promise it creates. *)
Definition call (args : list JsVal) : M nat :=
  enforce (bool_decide (0 < length args)%nat) "event" "string" >>
  enforce (is_string (default VUndef (head args))) "event" "string" >>
  let! s := this in
  let id := sequence s in
  modify (set_sequence (sequence s + 1)) >>
  modify (λ s, set_sequence (to_uint32 (sequence s)) s) >>
  let! s := this in
  assert (negb (Map_has id (jobs s))) "ID collision." >>
  sendCall id (VArr args) >>
  let! p := gensym in
  let! now := Date_now in
  modify (λ s, set_jobs (Map_set id (mkJob (PromiseResolve p) (PromiseReject p) now) (jobs s)) s) >>
  ret p.

Definition channel (name : string) : M bool :=
  let! s := this in
  ret (bool_decide (name ∈ channels s)).

End Methods.

(** ** Worlds *)

Definition with_sock (s : Socket) (w : World) : World :=
  mkWorld s (clock w) (fresh w) (log w).

Definition with_clock (t : Z) (w : World) : World :=
  mkWorld (sock w) t (fresh w) (log w).

Definition with_log (l : list (Socket * Effect)) (w : World) : World :=
  mkWorld (sock w) (clock w) (fresh w) l.

(** [w] after one more effect, performed in the state [w] is in. *)
Definition logged (e : Effect) (w : World) : World :=
  with_log (log w ++ [(sock w, e)]) w.

(** The coercions of an error received from the peer, in the words of the
    protocol: a message that is not a string becomes "No message.", a code
    that is not null, a number or a string becomes null, a type that is not
    a string becomes null. *)
Definition coerced_message (v : JsVal) : string :=
  match v with VStr s => s | _ => "No message." end.

Definition coerced_code (v : JsVal) : JsVal :=
  match v with
  | VNull => VNull
  | VNum n => VNum n
  | VStr s => VStr s
  | _ => VNull
  end.

Definition coerced_type (v : JsVal) : JsVal :=
  match v with VStr s => VStr s | _ => VNull end.

(** The [Error] handed to the application for an error object [err] of the
    peer. *)
Definition received_error (err : JsVal) : JsVal :=
  VErr KError (coerced_message (get_prop err "message"))
    [("code", coerced_code (get_prop err "code"));
     ("type", coerced_type (get_prop err "type"))].

Definition job_not_found (id : Z) : JsVal :=
  new_Error ("Job not found for " +:+ pretty id +:+ ".").

Definition type_error (name type : string) : JsVal :=
  VErr KTypeError ("'" +:+ name +:+ "' must be a(n) " +:+ type +:+ ".") [].

(** A small instance of the collaborators, for examples. *)
Definition demo_extern : Extern :=
  {| codes := λ c, if c =? 1006 then Some "ABNORMAL_CLOSURE" else None;
     blacklist := λ n, String.eqb n "error" || String.eqb n "newListener";
     Packet_fromString := λ d,
       match d with
       | DText "ack" => Ok (mkPacket ACK 0 0 [] (VArr [VNull; VNum 3]))
       | DText "bin" => Ok (mkPacket BINARY_EVENT (-1) 2 [] (VArr [VStr "blob"]))
       | DText _ => Ok (new_Packet CONNECT)
       | _ => Throw (new_Error "Bad packet.")
       end;
     Packet_toString := λ p, "packet";
     JSON_parse := λ d, Ok VNull;
     JSON_stringify := λ v, "json";
     apply_fn := λ f args, Ok VUndef;
     events_emit := λ ls args, Ok (VBool true) |}.

Definition demo_ws : WebSocket := mkWs 0 CbSession CbSession CbSession CbSession.

Definition demo_job : Job := mkJob (PromiseResolve 7) (PromiseReject 7) 0.

Definition world0 (s : Socket) : World := mkWorld s 1000 1 [].

(** The outcome of [emit('error', e)] for an [Error] [e]: the event is
    logged; a listener receives it, and without a listener [emit] throws
    [e]. *)
Definition reported (e : JsVal) (w : World) : Res unit * World :=
  (if has_listener "error" (sock w) then Ok tt else Throw e,
   logged (Emit "error" [e]) w).

(** [w] once the application has registered a listener for [error]. *)
Definition listening (w : World) : World :=
  (on "error" (Application (UserFn 0)) w).2.

(** ** Vocabulary of the properties *)

Definition ack_packet : Packet := mkPacket ACK 0 0 [] (VArr [VNull; VNum 3]).

Definition waiting_world : World :=
  world0 (set_jobs [(0, demo_job)] new_Socket).

(** The assignments at the head of [close]. *)
Definition reset_session (now : Z) (s : Socket) : Socket :=
  set_lastPing 0 (set_sequence 0 (set_challenge false
    (set_connected false (set_packet None (set_time now s))))).

(** The log of the loop of [close] over the jobs [js]: each job is rejected
    in a session whose table holds the jobs after it. *)
Fixpoint rejects_log (s : Socket) (js : list (Z * Job)) : list (Socket * Effect) :=
  match js with
  | [] => []
  | (id, job) :: js' =>
      (set_jobs js' s, Call (job_reject job) [new_Error "Job timed out."])
      :: rejects_log s js'
  end.

Definition busy_world : World :=
  world0 (set_ws (Some demo_ws)
           (set_connected true
             (set_jobs [(0, demo_job); (1, mkJob (PromiseResolve 8) (PromiseReject 8) 5)]
                new_Socket))).

(** A method never rewrites the effects already performed. *)
Definition extends {A} (m : M A) : Prop :=
  ∀ w, ∃ l, log (m w).2 = (log w ++ l)%list.

Definition timed_out_waiting : Effect :=
  Emit "error" [new_Error "Timed out waiting for connection."].

Definition stale_world : World :=
  mkWorld (set_time 0 (set_ws (Some demo_ws) new_Socket)) 50000 1 [].

(** [ws.send] of a frame by a connected session. *)
Definition transmit (s : Socket) (k : WebSocket) (f : Frame) : Effect :=
  WsSend (ws_id k) (if frame_binary f && binary s then Raw else Text) f.

(** The frames an inbound session sends when its transport opens: the OPEN
    frame with the handshake and the CONNECT packet. *)
Definition handshake_frames (X : Extern) (s : Socket) : list Frame :=
  [mkFrame OPEN (DText (JSON_stringify X (VObj
      [("sid", VStr "00000000000000000000");
       ("upgrades", VArr []);
       ("pingInterval", VNum (pingInterval s));
       ("pingTimeout", VNum (pingTimeout s))]))) false;
   mkFrame MESSAGE (DText (Packet_toString X (new_Packet CONNECT))) false].

(** The claim that the buffer is flushed first and before [connected] is
    set: the effects of [onOpen] begin with the transmission of the buffered
    frames, in order, each performed while [connected] is still false. *)
Definition flushed_before_connected (X : Extern) (w : World) : Prop :=
  ∃ k flushed rest,
    ws (sock w) = Some k
    ∧ log (onOpen X w).2 = (log w ++ flushed ++ rest)%list
    ∧ flushed.*2 = map (transmit (sock w) k) (buffer (sock w))
    ∧ Forall (λ '(s, _), connected s = false) flushed.

Definition ping_frame : Frame := mkFrame PING DUndef false.

Definition accepted_world : World :=
  world0 (set_buffer [ping_frame] (set_inbound true (set_ws (Some demo_ws) new_Socket))).

Definition dialing_world : World :=
  world0 (set_buffer [ping_frame] (set_ws (Some demo_ws) new_Socket)).

(** A method is quiet when, run on a disconnected session, it leaves the
    session disconnected and performs no effect. *)
Definition quiet {A} (m : M A) : Prop :=
  ∀ w, connected (sock w) = false →
       connected (sock (m w).2) = false ∧ log (m w).2 = log w.

(** "No state is mutated and no event is emitted." *)
Definition frozen {A} (m : M A) (w : World) : Prop :=
  sock (m w).2 = sock w ∧ log (m w).2 = log w.

(** A session after [destroy()]. *)
Definition torn_world : World :=
  (destroy (world0 (set_ws (Some demo_ws) new_Socket))).2.

(** The frame of the ERROR packet sent back for a refused event. *)
Definition refusal_frame (X : Extern) (name : string) : Frame :=
  mkFrame MESSAGE
    (DText (Packet_toString X (mkPacket ERROR (-1) 0 []
       (VObj [("message", VStr ("Cannot emit blacklisted event: " +:+ name +:+ "."));
              ("code", VNull); ("type", VNull)]))))
    false.

(** The frame of the EVENT packet sent by [fire]. *)
Definition event_frame (X : Extern) (args : list JsVal) : Frame :=
  mkFrame MESSAGE
    (DText (Packet_toString X (mkPacket EVENT (-1) 0 [] (VArr args))))
    false.

Definition clean_close (event : CloseEvent) : bool :=
  (ev_code event =? 1000) || (ev_code event =? 1001).

(** The textual code of the table, ["UNKNOWN_CODE"] on a miss. *)
Definition table_code (X : Extern) (c : Z) : string :=
  match codes X c with
  | Some t => if decide (t = "") then "UNKNOWN_CODE" else t
  | None => "UNKNOWN_CODE"
  end.

Definition could_not_connect : Effect :=
  Emit "error" [new_Error "Could not connect."].

Definition unconnected_world : World := world0 (set_ws (Some demo_ws) new_Socket).

Definition attachment (d : FData) : Frame := mkFrame MESSAGE d true.

Definition with_buffers (bs : list FData) (p : Packet) : Packet :=
  mkPacket (packet_type p) (packet_id p) (attachments p) bs (payload p).

Definition reassembling (p : Packet) (w : World) : World :=
  with_sock (set_packet (Some p) (sock w)) w.

Definition assembled (w : World) : World :=
  with_sock (set_packet None (sock w)) w.

Definition not_an_attachment : JsVal :=
  new_Error "Received non-binary frame as attachment.".

(** The claim that during a reassembly every arriving frame that is not a
    binary MESSAGE frame raises an error. *)
Definition reassembly_rejects (X : Extern) (w : World) (f : Frame) : Prop :=
  is_Some (packet (sock w)) →
  ¬ (frame_type f = MESSAGE ∧ frame_binary f = true) →
  ∃ e, (handleFrame X f w).1 = Throw e.

Definition midway_world : World :=
  world0 (set_packet (Some (mkPacket BINARY_EVENT (-1) 2 [DBin []] (VArr [VStr "blob"])))
           (set_connected true (set_ws (Some demo_ws) new_Socket))).

(** The frame of the EVENT packet sent by [call] under the id [id]. *)
Definition call_frame (X : Extern) (id : Z) (args : list JsVal) : Frame :=
  mkFrame MESSAGE
    (DText (Packet_toString X (mkPacket EVENT id 0 [] (VArr args))))
    false.

Definition id_collision : JsVal := VErr KAssertionError "ID collision." [].

Definition new_job (p : nat) (now : Z) : Job :=
  mkJob (PromiseResolve p) (PromiseReject p) now.

Definition wrapping_world : World :=
  world0 (set_sequence (2 ^ 32 - 1) new_Socket).

(** ** Vocabulary of the further properties *)

(** The rejection of a job that timed out or was abandoned. *)
Definition timeout_rejection (job : Job) : Effect :=
  Call (job_reject job) [new_Error "Job timed out."].

(** The effects of [close()] on a session: every job rejected, in the order
    of the table, then the transport closed. *)
Definition close_effects (s : Socket) : list Effect :=
  (map (λ '(_, job), timeout_rejection job) (jobs s)
   ++ match ws s with Some k => [WsClose (ws_id k)] | None => [] end)%list.

(** The effects of the first [destroy()] on a session. *)
Definition destroy_effects (s : Socket) : list Effect :=
  (close_effects s
   ++ match timer s with Some t => [ClearTimeout t] | None => [] end
   ++ [Emit "close" []; RemoveAllListeners; OnErrorSwallow])%list.

(** A session that holds nothing of a connection any more. *)
Definition disconnected (s : Socket) : Prop :=
  connected s = false ∧ challenge s = false ∧ packet s = None ∧ jobs s = []
  ∧ sequence s = 0.

Definition is_close_emit (e : Effect) : bool :=
  match e with
  | Emit name _ => String.eqb name "close"
  | _ => false
  end.

Definition live_world : World :=
  mkWorld (set_timer (Some 4%nat) (set_ws (Some demo_ws) (set_connected true
             (set_jobs [(0, demo_job); (1, mkJob (PromiseResolve 8) (PromiseReject 8) 5)]
                new_Socket)))) 1000 5%nat [].

(** The effects of the teardown after a failure: an inbound session
    destroys itself, an outbound one closes. *)
Definition teardown_effects (s : Socket) : list Effect :=
  if inbound s then destroy_effects s else close_effects s.

(** What [onClose] emits before the teardown. *)
Definition close_emits (X : Extern) (event : CloseEvent) (s : Socket) : list Effect :=
  if (ev_code event =? 1000) || (ev_code event =? 1001) then
    if connected s then [] else [Emit "error" [new_Error "Could not connect."]]
  else [Emit "error" [close_error X event]].

(** A job is expired at [now] when it was issued more than 600000 ms
    before. *)
Definition expired (now : Z) (entry : Z * Job) : bool :=
  now - job_time entry.2 >? 600000.

Definition stalling : Effect :=
  Emit "error" [new_Error "Connection is stalling (ping)."].

Definition bad_pong : Effect :=
  Emit "error" [new_Error "Remote node sent bad pong."].

Definition pong_frame : Frame := mkFrame PONG DUndef false.

(** A connected session with one job issued at 0 and one at 900000, at
    time 1000000. *)
Definition aged_world : World :=
  mkWorld (set_ws (Some demo_ws) (set_connected true
             (set_jobs [(0, demo_job); (1, mkJob (PromiseResolve 8) (PromiseReject 8) 900000)]
                new_Socket))) 1000000 5%nat [].

(** The same session with a ping sent at 100000 and not answered. *)
Definition challenged_world : World :=
  with_sock (set_lastPing 100000 (set_challenge true (sock aged_world))) aged_world.

(** The handshake object of a session, as [sendHandshake] builds it. *)
Definition handshake_object (s : Socket) : JsVal :=
  VObj [("sid", VStr "00000000000000000000");
        ("upgrades", VArr []);
        ("pingInterval", VNum (pingInterval s));
        ("pingTimeout", VNum (pingTimeout s))].

(** A handshake payload that [handleOpen] accepts. *)
Definition valid_handshake (json : JsVal) : bool :=
  truthy json && is_object json
  && is_uint32 (get_prop json "pingInterval")
  && is_uint32 (get_prop json "pingTimeout").

(** Collaborators whose codecs invert each other on the packets and the
    handshake of the examples. *)
Definition echo_extern : Extern :=
  {| codes := λ c, None;
     blacklist := λ n, String.eqb n "error";
     Packet_fromString := λ d,
       match d with
       | DText "ack" => Ok (mkPacket ACK 0 0 [] (VArr [VNull; VNum 3]))
       | DText "nack" =>
           Ok (mkPacket ACK 0 0 []
                 (VArr [VObj [("message", VStr "bad"); ("code", VNum 42); ("type", VNull)]]))
       | DText "call" => Ok (mkPacket EVENT 0 0 [] (VArr [VStr "add"; VNum 1; VNum 2]))
       | DText "boom" => Ok (mkPacket EVENT 0 0 [] (VArr [VStr "boom"]))
       | DText "blob" => Ok (mkPacket BINARY_EVENT (-1) 2 [] (VArr [VStr "blob"]))
       | _ => Throw (new_Error "Bad packet.")
       end;
     Packet_toString := λ p,
       match packet_type p, payload p with
       | ACK, VArr [VNull; _] => "ack"
       | ACK, _ => "nack"
       | BINARY_EVENT, _ => "blob"
       | EVENT, VArr [VStr "boom"] => "boom"
       | _, _ => "call"
       end;
     JSON_parse := λ d, Ok (handshake_object new_Socket);
     JSON_stringify := λ v, "handshake";
     apply_fn := λ f args,
       match f with
       | UserFn 1 => Ok (VNum 3)
       | _ => Throw (VObj [("message", VStr "bad"); ("code", VNum 42)])
       end;
     events_emit := λ ls args, Ok (VBool true) |}.

(** A connected session with a transport and nothing pending. *)
Definition idle_world : World :=
  mkWorld (set_ws (Some demo_ws) (set_connected true new_Socket)) 1000 5%nat [].

(** The frames of a packet on the wire: the textual MESSAGE frame, then one
    binary MESSAGE frame for each buffer. *)
Definition packet_frames (X : Extern) (p : Packet) : list Frame :=
  mkFrame MESSAGE (DText (Packet_toString X p)) false :: map attachment (buffers p).

Definition blob_packet : Packet :=
  mkPacket BINARY_EVENT (-1) 2 [DBin []; DBin [Byte.x78]] (VArr [VStr "blob"]).

(** The error object put on the wire for a thrown [e]. *)
Definition wire_error (e : JsVal) : JsVal :=
  VObj [("message", castMsg (get_prop e "message"));
        ("code", castCode (get_prop e "code"));
        ("type", castType (get_prop e "type"))].

Definition ack_packet_of (id : Z) (data : JsVal) : Packet :=
  mkPacket ACK id 0 [] (VArr [VNull; data]).

Definition nack_packet_of (id : Z) (e : JsVal) : Packet :=
  mkPacket ACK id 0 [] (VArr [wire_error e]).

Definition call_packet_of (id : Z) (args : list JsVal) : Packet :=
  mkPacket EVENT id 0 [] (VArr args).

Definition error_packet_of (e : JsVal) : Packet :=
  mkPacket ERROR (-1) 0 [] (wire_error e).

(** The textual MESSAGE frame of a packet without buffers. *)
Definition text_frame (X : Extern) (p : Packet) : Frame :=
  mkFrame MESSAGE (DText (Packet_toString X p)) false.

Definition call_not_found (name : string) : JsVal :=
  new_Error ("Call not found: " +:+ name +:+ ".").

(** A connected server session with a hook for "add". *)
Definition server_world : World :=
  mkWorld (set_hooks (<["add" := UserFn 1]> (<["boom" := UserFn 2]> ∅))
             (set_inbound true (set_ws (Some (mkWs 9 CbSession CbSession CbSession CbSession))
                (set_connected true new_Socket)))) 2000 3%nat [].

Definition hook_already_bound : JsVal := VErr KAssertionError "Hook already bound." [].

Definition blacklisted_event : JsVal := VErr KAssertionError "Blacklisted event." [].

(** The arguments [fire] and [call] accept: a string first. *)
Definition names_event (args : list JsVal) : bool :=
  match args with
  | VStr _ :: _ => true
  | _ => false
  end.

(** ** Runs of a session *)

(** What reaches a session: the events of its transport (the callbacks
    installed by [bind], the frames coming out of the parser), the ticks of
    the timer started by [start], and the calls of the application, the
    registration of a listener among them. *)
Inductive Input :=
| TransportOpen
| TransportFrame (f : Frame)
| TransportError (message : string)
| TransportClose (event : CloseEvent)
| Tick (now : Z)
| ApiCall (args : list JsVal)
| ApiFire (args : list JsVal)
| ApiHook (event handler : JsVal)
| ApiListen (event handler : JsVal)
| ApiOn (name : string) (f : Fn)
| ApiDestroy.

(** One input, handled to completion; a tick reads the clock at [now]. *)
Definition step (X : Extern) (i : Input) (w : World) : World :=
  match i with
  | TransportOpen => (onOpen X w).2
  | TransportFrame f => (onFrame X f w).2
  | TransportError message => (onError message w).2
  | TransportClose event => (onClose X event w).2
  | Tick now => (stall (with_clock now w)).2
  | ApiCall args => (call X args w).2
  | ApiFire args => (fire X args w).2
  | ApiHook event handler => (hook X event handler w).2
  | ApiListen event handler => (listen X event handler w).2
  | ApiOn name f => (on name (Application f) w).2
  | ApiDestroy => (destroy w).2
  end.

Definition run (X : Extern) (inputs : list Input) (w : World) : World :=
  foldl (λ w i, step X i w) w inputs.

(** The job table has one entry per id and [sequence] is an unsigned
    32-bit integer. *)
Definition session_ok (s : Socket) : Prop :=
  Map_wf (jobs s) = true ∧ 0 ≤ sequence s < 2 ^ 32.

(** A method keeps a property of the session. *)
Definition keeps {A} (P : Socket → Prop) (m : M A) : Prop :=
  ∀ w, P (sock w) → P (sock (m w).2).

Definition close_frame : Frame := mkFrame CLOSE DUndef false.

(** A session that dialled out and waits for its transport to open. *)
Definition waiting_session : World :=
  mkWorld (set_ws (Some demo_ws) new_Socket) 1000 5%nat [].

(** * Properties *)

(** ** Structural facts *)

Lemma Map_get_delete id m : Map_get id (Map_delete id m) = None.
Proof.
  induction m as [|[k j] m IH]; simpl; [done|].
  destruct (k =? id) eqn:E; simpl; [done|]. by rewrite E.
Qed.

Lemma Map_has_delete id m : Map_has id (Map_delete id m) = false.
Proof. unfold Map_has. by rewrite Map_get_delete. Qed.

Lemma Map_delete_fresh id m : Map_has id m = false → Map_delete id m = m.
Proof.
  unfold Map_has. induction m as [|[k j] m IH]; simpl; [done|].
  destruct (k =? id) eqn:E; [done|]. intros H. by rewrite IH.
Qed.

Lemma Map_get_set id j m : Map_get id (Map_set id j m) = Some j.
Proof.
  induction m as [|[k j'] m IH]; simpl.
  - by rewrite Z.eqb_refl.
  - destruct (k =? id) eqn:E; simpl; by rewrite E.
Qed.

(** [emit] when the event has a listener, or is not [error]. *)
Lemma emit_heard name args w :
  (name = "error" → has_listener "error" (sock w) = true) →
  emit name args w = (Ok tt, logged (Emit name args) w).
Proof.
  intros H. unfold emit, andThen, effect, this. cbn [sock].
  destruct (String.eqb_spec name "error") as [E|E]; [|done].
  by rewrite (H E).
Qed.

(** [emit] of [error] when nobody listens. *)
Lemma emit_unheard args w :
  has_listener "error" (sock w) = false →
  emit "error" args w
  = (Throw (unhandled_error args), logged (Emit "error" args) w).
Proof.
  intros H. unfold emit, andThen, effect, this. cbn [sock].
  by rewrite H.
Qed.

(** What follows [emit('error', e)] runs when a listener exists; without
    one the error is thrown and the rest of the method is skipped. *)
Lemma emit_error_then {B} args (k : M B) w :
  (emit "error" args >> k) w =
    if has_listener "error" (sock w) then k (logged (Emit "error" args) w)
    else (Throw (unhandled_error args), logged (Emit "error" args) w).
Proof.
  unfold andThen at 1.
  destruct (has_listener "error" (sock w)) eqn:H.
  - by rewrite emit_heard.
  - by rewrite emit_unheard.
Qed.

Lemma emit_reported k msg props w :
  emit "error" [VErr k msg props] w = reported (VErr k msg props) w.
Proof.
  unfold reported. destruct (has_listener "error" (sock w)) eqn:H.
  - by rewrite emit_heard.
  - by rewrite emit_unheard.
Qed.

Lemma emit_close w : emit "close" [] w = (Ok tt, logged (Emit "close" []) w).
Proof. by apply emit_heard. Qed.

Lemma emit_open w : emit "open" [] w = (Ok tt, logged (Emit "open" []) w).
Proof. by apply emit_heard. Qed.

Lemma castMsg_coerced v : castMsg v = VStr (coerced_message v).
Proof. by destruct v. Qed.

Lemma castCode_coerced v : castCode v = coerced_code v.
Proof. by destruct v. Qed.

Lemma castType_coerced v : castType v = coerced_type v.
Proof. by destruct v. Qed.

Lemma rpc_error_received err :
  rpc_error (castMsg (get_prop err "message")) (castCode (get_prop err "code"))
            (castType (get_prop err "type"))
  = received_error err.
Proof.
  unfold rpc_error, received_error.
  by rewrite castMsg_coerced, castCode_coerced, castType_coerced.
Qed.

(** [handleError] on an error object, in closed form. *)
Lemma handleError_eq id err w :
  is_nullish err = false →
  handleError id err w =
    if id =? -1 then emit "error" [received_error err] w
    else match Map_get id (jobs (sock w)) with
         | None => (Throw (job_not_found id), w)
         | Some job =>
             let s' := set_jobs (Map_delete id (jobs (sock w))) (sock w) in
             (Ok tt, logged (Call (job_reject job) [received_error err])
                       (with_sock s' w))
         end.
Proof.
  intros Hn. unfold handleError, prop. rewrite Hn. cbn [andThen ret].
  rewrite rpc_error_received.
  destruct (id =? -1); [done|].
  unfold andThen, this. destruct (Map_get id (jobs (sock w))); by destruct w.
Qed.

(** C8: an error object received from the peer (an ERROR packet, [id = -1],
    or the error of an ACK) reaches the application with its fields
    coerced: a non-string message is "No message.", a code that is not
    null, a number or a string is null, a non-string type is null, and
    values of the permitted types are unchanged.  For [id = -1] the
    coerced error is emitted as [error]: a listener receives it, and
    without a listener it is the error that [emit] throws. *)
Theorem handleError_coerces_fields (id : Z) (err : JsVal) (w : World) :
  is_nullish err = false →
  (castMsg (get_prop err "message") = VStr (coerced_message (get_prop err "message"))
   ∧ castCode (get_prop err "code") = coerced_code (get_prop err "code")
   ∧ castType (get_prop err "type") = coerced_type (get_prop err "type"))
  ∧ (id = -1 →
     handleError id err w = emit "error" [received_error err] w
     ∧ (has_listener "error" (sock w) = true →
        handleError id err w
        = (Ok tt, logged (Emit "error" [received_error err]) w))
     ∧ (has_listener "error" (sock w) = false →
        handleError id err w
        = (Throw (received_error err), logged (Emit "error" [received_error err]) w)))
  ∧ (∀ job, id ≠ -1 → Map_get id (jobs (sock w)) = Some job →
     ∃ s', handleError id err w
           = (Ok tt, logged (Call (job_reject job) [received_error err]) (with_sock s' w))).
Proof.
  intros Hn. split; [|split].
  - by rewrite castMsg_coerced, castCode_coerced, castType_coerced.
  - intros ->. rewrite handleError_eq by done. cbn [Z.eqb Pos.eqb].
    split; [done|]. split; intros Hl.
    + by apply emit_heard.
    + by rewrite emit_unheard.
  - intros job Hid Hjob. rewrite handleError_eq by done.
    destruct (Z.eqb_spec id (-1)); [done|]. rewrite Hjob. eauto.
Qed.

Lemma handleError_coerces_fields_witness :
  handleError (-1) (VObj [("message", VNum 5); ("code", VBool true); ("type", VStr "T")])
              (listening (world0 new_Socket))
  = (Ok tt, logged (Emit "error"
                      [VErr KError "No message." [("code", VNull); ("type", VStr "T")]])
                   (listening (world0 new_Socket)))
  ∧ handleError (-1) (VObj [("message", VNum 5); ("code", VBool true); ("type", VStr "T")])
                (world0 new_Socket)
    = (Throw (VErr KError "No message." [("code", VNull); ("type", VStr "T")]),
       logged (Emit "error"
                 [VErr KError "No message." [("code", VNull); ("type", VStr "T")]])
              (world0 new_Socket)).
Proof.
  split.
  - apply (proj1 (proj2 (handleError_coerces_fields (-1)
            (VObj [("message", VNum 5); ("code", VBool true); ("type", VStr "T")])
            (listening (world0 new_Socket)) eq_refl)));
      reflexivity.
  - apply (proj1 (proj2 (handleError_coerces_fields (-1)
            (VObj [("message", VNum 5); ("code", VBool true); ("type", VStr "T")])
            (world0 new_Socket) eq_refl)));
      reflexivity.
Defined.

(** [handleAck] in closed form. *)
Lemma handleAck_eq id data w :
  handleAck id data w =
    match Map_get id (jobs (sock w)) with
    | None => (Throw (job_not_found id), w)
    | Some job =>
        let s' := set_jobs (Map_delete id (jobs (sock w))) (sock w) in
        (Ok tt, logged (Call (job_resolve job) [data]) (with_sock s' w))
    end.
Proof.
  unfold handleAck, andThen, this.
  destruct (Map_get id (jobs (sock w))); by destruct w.
Qed.

Lemma truthy_not_nullish v : truthy v = true → is_nullish v = false.
Proof. by destruct v. Qed.

(** [handlePacket] on an ACK or BINARY_ACK packet, in closed form. *)
Lemma handlePacket_ack_eq (X : Extern) p w :
  packet_type p = ACK ∨ packet_type p = BINARY_ACK →
  handlePacket X p w =
    let json := getData p in
    let err := ack_item json 0 in
    if packet_id p =? -1 then (Throw (type_error "id" "uint32"), w)
    else if negb (is_nullish json || isArray json)
    then (Throw (type_error "args" "array"), w)
    else if truthy err then
      if is_object err then handleError (packet_id p) err w
      else (Throw (type_error "error" "object"), w)
    else handleAck (packet_id p) (nullish_to_null (ack_item json 1)) w.
Proof.
  intros Ht. unfold handlePacket.
  destruct Ht as [Ht | Ht]; rewrite Ht; cbn zeta;
    (destruct (packet_id p =? -1); [done|]);
    unfold enforce at 1; cbn [negb andThen ret];
    unfold enforce at 1;
    (destruct (is_nullish (getData p) || isArray (getData p)); [|done]);
    cbn [negb andThen ret];
    (destruct (truthy (ack_item (getData p) 0)); [|done]);
    unfold andThen, enforce;
    by destruct (is_object (ack_item (getData p) 0)).
Qed.



(** ** Teardown *)

Lemma rejects_log_set_jobs a s js :
  rejects_log (set_jobs a s) js = rejects_log s js.
Proof. induction js as [|[id job] js IH]; simpl; [done|]. by rewrite IH. Qed.

Lemma reject_all_eq js : ∀ w,
  jobs (sock w) = js → Map_wf js = true →
  for_of js (λ '(id, job), reject_job id job) w
  = (Ok tt, mkWorld (set_jobs [] (sock w)) (clock w) (fresh w)
              (log w ++ rejects_log (sock w) js)).
Proof.
  induction js as [|[id job] js IH]; intros w Hjs Hwf.
  - simpl. unfold ret. destruct w as [s c f l]; simpl in *.
    rewrite app_nil_r. f_equal. f_equal. destruct s; simpl in *. by subst.
  - simpl in Hwf. apply andb_prop in Hwf as [Hfresh Hwf].
    apply negb_true_iff in Hfresh.
    cbn [for_of]. unfold andThen at 1, reject_job at 1. unfold andThen at 1.
    cbn [modify effect sock clock fresh log]. rewrite Hjs. cbn [Map_delete].
    rewrite Z.eqb_refl, (Map_delete_fresh _ _ Hfresh).
    rewrite IH by done. cbn [sock clock fresh log rejects_log].
    rewrite rejects_log_set_jobs, <- app_assoc. done.
Qed.

(** [close] in closed form. *)
Lemma close_eq w :
  Map_wf (jobs (sock w)) = true →
  close w =
    let s0 := reset_session (clock w) (sock w) in
    let s1 := set_jobs [] s0 in
    let l1 := (log w ++ rejects_log s0 (jobs (sock w)))%list in
    match ws (sock w) with
    | None => (Ok tt, mkWorld s1 (clock w) (fresh w) l1)
    | Some k =>
        let s2 := set_ws (Some (noop_callbacks k)) s1 in
        (Ok tt, mkWorld s2 (clock w) (fresh w) (l1 ++ [(s2, WsClose (ws_id k))]))
    end.
Proof.
  intros Hwf. unfold close.
  unfold andThen at 1. cbn [Date_now].
  do 6 (unfold andThen at 1; cbn [modify sock clock fresh log]).
  unfold andThen at 1. cbn [this sock].
  unfold andThen at 1.
  change (jobs (set_lastPing 0 _)) with (jobs (sock w)).
  rewrite reject_all_eq by done.
  cbn [sock clock fresh log]. unfold andThen at 1. cbn [this sock].
  change (ws (set_jobs [] _)) with (ws (sock w)).
  destruct (ws (sock w)); done.
Qed.

Lemma rejects_log_removed s js :
  Map_wf js = true →
  Forall2 (λ '(id, job) '(s', e),
             e = Call (job_reject job) [new_Error "Job timed out."]
             ∧ Map_has id (jobs s') = false)
          js (rejects_log s js).
Proof.
  induction js as [|[id job] js IH]; simpl; intros Hwf; [constructor|].
  apply andb_prop in Hwf as [Hfresh Hwf]. apply negb_true_iff in Hfresh.
  constructor; [|by apply IH]. split; [done|]. by destruct s.
Qed.

Lemma rejects_log_no_emit s js s' name args :
  (s', Emit name args) ∉ rejects_log s js.
Proof.
  induction js as [|[id job] js IH]; simpl.
  - apply not_elem_of_nil.
  - rewrite elem_of_cons. intros [? | ?]; [congruence | done].
Qed.

(** C7: [close()] clears the in-progress packet, [connected] and
    [challenge], resets [sequence] and [lastPing] to 0, rejects every
    outstanding job with the error "Job timed out.", each in a session whose
    table no longer holds it, and leaves the table empty; the callbacks of
    the transport ([onopen], [onmessage], [onerror], [onclose]) are all
    four replaced by empty functions, the transport stays the same one and
    is closed after that; nothing is emitted, so no [close] event. *)
Theorem close_tears_down (w : World) :
  Map_wf (jobs (sock w)) = true →
  ∃ w' rejections closing,
    close w = (Ok tt, w')
    ∧ packet (sock w') = None
    ∧ connected (sock w') = false
    ∧ challenge (sock w') = false
    ∧ sequence (sock w') = 0
    ∧ lastPing (sock w') = 0
    ∧ jobs (sock w') = []
    ∧ Forall2 (λ '(id, job) '(s, e),
                 e = Call (job_reject job) [new_Error "Job timed out."]
                 ∧ Map_has id (jobs s) = false)
              (jobs (sock w)) rejections
    ∧ ws (sock w') = match ws (sock w) with
                     | Some k => Some (mkWs (ws_id k) CbNoop CbNoop CbNoop CbNoop)
                     | None => None
                     end
    ∧ closing = match ws (sock w) with
                | Some k => [(sock w', WsClose (ws_id k))]
                | None => []
                end
    ∧ log w' = (log w ++ rejections ++ closing)%list
    ∧ ∀ s name args, (s, Emit name args) ∉ (rejections ++ closing)%list.
Proof.
  intros Hwf. rewrite close_eq by done. cbv zeta.
  set (s0 := reset_session (clock w) (sock w)).
  destruct (ws (sock w)) as [k|] eqn:Hws.
  - eexists _, (rejects_log s0 (jobs (sock w))), _.
    split; [done|]. cbn [sock log].
    do 6 (split; [done|]).
    split; [by apply rejects_log_removed|].
    split; [done|]. split; [done|].
    split; [by rewrite <- app_assoc|].
    intros s name args. rewrite elem_of_app, list_elem_of_singleton.
    intros [H | H]; [by apply rejects_log_no_emit in H | congruence].
  - eexists _, (rejects_log s0 (jobs (sock w))), _.
    split; [done|]. cbn [sock log].
    do 6 (split; [done|]).
    split; [by apply rejects_log_removed|].
    split; [done|]. split; [done|].
    split; [by rewrite app_nil_r|].
    intros s name args. rewrite app_nil_r. apply rejects_log_no_emit.
Qed.

Lemma close_tears_down_witness :
  ∃ w', close busy_world = (Ok tt, w')
        ∧ jobs (sock w') = []
        ∧ connected (sock w') = false
        ∧ ws (sock busy_world) = Some (mkWs 0 CbSession CbSession CbSession CbSession)
        ∧ ws (sock w') = Some (mkWs 0 CbNoop CbNoop CbNoop CbNoop).
Proof.
  destruct (close_tears_down busy_world eq_refl)
    as (w' & rej & cl & Hc & _ & Hconn & _ & _ & _ & Hjobs & _ & Hws & _).
  exists w'. repeat split; assumption || reflexivity.
Defined.

(** ** The log only grows *)

Create HintDb extends discriminated.

Lemma extends_ret {A} (a : A) : extends (ret a).
Proof. intros w. exists []. by rewrite app_nil_r. Qed.

Lemma extends_throw {A} e : extends (@throw A e).
Proof. intros w. exists []. by rewrite app_nil_r. Qed.

Lemma extends_this : extends this.
Proof. intros w. exists []. by rewrite app_nil_r. Qed.

Lemma extends_Date_now : extends Date_now.
Proof. intros w. exists []. by rewrite app_nil_r. Qed.

Lemma extends_gensym : extends gensym.
Proof. intros w. exists []. by rewrite app_nil_r. Qed.

Lemma extends_modify f : extends (modify f).
Proof. intros w. exists []. by rewrite app_nil_r. Qed.

Lemma extends_effect e : extends (effect e).
Proof. intros w. by eexists. Qed.

Lemma extends_andThen {A B} (m : M A) (k : A → M B) :
  extends m → (∀ a, extends (k a)) → extends (andThen m k).
Proof.
  intros Hm Hk w. unfold andThen. destruct (Hm w) as [l1 H1].
  destruct (m w) as [[a|e] w1]; simpl in *.
  - destruct (Hk a w1) as [l2 H2]. exists (l1 ++ l2)%list.
    by rewrite H2, H1, app_assoc.
  - by exists l1.
Qed.

Lemma extends_try_catch {A} (m : M A) (h : JsVal → M A) :
  extends m → (∀ e, extends (h e)) → extends (try_catch m h).
Proof.
  intros Hm Hh w. unfold try_catch. destruct (Hm w) as [l1 H1].
  destruct (m w) as [[a|e] w1]; simpl in *.
  - by exists l1.
  - destruct (Hh e w1) as [l2 H2]. exists (l1 ++ l2)%list.
    by rewrite H2, H1, app_assoc.
Qed.

Lemma extends_if {A} (b : bool) (m1 m2 : M A) :
  extends m1 → extends m2 → extends (if b then m1 else m2).
Proof. by destruct b. Qed.

Lemma extends_when b m : extends m → extends (when b m).
Proof. destruct b; [done|]. intros _. apply extends_ret. Qed.

Lemma extends_for_of {A} (l : list A) (body : A → M unit) :
  (∀ x, extends (body x)) → extends (for_of l body).
Proof.
  intros Hb. induction l as [|x l IH]; simpl.
  - apply extends_ret.
  - apply extends_andThen; [apply Hb | by intros _].
Qed.

Lemma extends_enforce b n t : extends (enforce b n t).
Proof. unfold enforce. destruct (negb b); [apply extends_throw | apply extends_ret]. Qed.

Lemma extends_assert b m : extends (assert b m).
Proof. unfold assert. destruct (negb b); [apply extends_throw | apply extends_ret]. Qed.

#[local] Hint Resolve extends_ret extends_throw extends_this extends_Date_now
  extends_gensym extends_modify extends_effect extends_enforce extends_assert
  : extends.
#[local] Hint Extern 2 (extends (andThen _ _)) =>
  apply extends_andThen; [|intros ?] : extends.
#[local] Hint Extern 2 (extends (try_catch _ _)) =>
  apply extends_try_catch; [|intros ?] : extends.
#[local] Hint Extern 2 (extends (for_of _ _)) =>
  apply extends_for_of; intros ? : extends.
#[local] Hint Extern 2 (extends (when _ _)) => apply extends_when : extends.
#[local] Hint Extern 3 (extends (if ?b then _ else _)) => destruct b : extends.
#[local] Hint Extern 3 (extends (match ?o with Some _ => _ | None => _ end)) =>
  destruct o : extends.
#[local] Hint Extern 3 (extends (let '(_, _) := ?p in _)) => destruct p : extends.

Ltac extends_tac := eauto 40 with extends.

Lemma extends_send frame : extends (send frame).
Proof. unfold send. extends_tac. Qed.
#[local] Hint Resolve extends_send : extends.

Lemma extends_reject_job id job : extends (reject_job id job).
Proof. unfold reject_job. extends_tac. Qed.
#[local] Hint Resolve extends_reject_job : extends.

Lemma extends_close : extends close.
Proof. unfold close. extends_tac. Qed.
#[local] Hint Resolve extends_close : extends.

Lemma extends_reconnect : extends reconnect.
Proof. unfold reconnect, new_WebSocket, bind. extends_tac. Qed.

Lemma extends_emit name args : extends (emit name args).
Proof. unfold emit. extends_tac. Qed.
#[local] Hint Resolve extends_emit : extends.

Lemma extends_destroy : extends destroy.
Proof. unfold destroy, stop, removeAllListeners, on_error_swallow, on. extends_tac. Qed.
#[local] Hint Resolve extends_reconnect extends_destroy : extends.

(** ** Connect timeout *)

Lemma reconnect_eq w :
  Map_wf (jobs (sock w)) = true →
  ∃ w1, reconnect w = (Ok tt, w1)
        ∧ time (sock w1) = clock w
        ∧ connected (sock w1) = false
        ∧ inbound (sock w1) = inbound (sock w)
        ∧ ws (sock w1) = Some (mkWs (fresh w) CbSession CbSession CbSession CbSession)
        ∧ clock w1 = clock w.
Proof.
  intros Hwf. unfold reconnect. unfold andThen at 1. rewrite close_eq by done.
  cbv zeta. destruct (ws (sock w)); eexists; (split; [reflexivity|]); done.
Qed.

(** [stall] on a session that is not connected. *)
Lemma stall_disconnected w :
  connected (sock w) = false → is_Some (ws (sock w)) →
  stall w =
    if clock w - time (sock w) >? 10000 then
      (error "Timed out waiting for connection." >>
       if inbound (sock w) then destroy else reconnect) w
    else (Ok tt, w).
Proof.
  intros Hc [k Hk]. unfold stall. unfold andThen at 1. cbn [Date_now].
  unfold andThen at 1. cbn [this]. rewrite Hk, Hc. cbn [negb].
  unfold andThen at 1. rewrite bool_decide_eq_true_2 by eauto.
  cbn [assert negb ret].
  by destruct (clock w - time (sock w) >? 10000).
Qed.

(** C10: every [close()] stores the current time in [time]; the liveness
    tick measures the 10 second connect timeout from [time], so after
    [reconnect()], which closes first, the timeout runs from the moment of
    the reconnect, whatever [time] was before: a tick at [t1] does nothing
    up to 10000 ms after it and reports the timeout beyond. *)
Theorem close_restarts_connect_timeout (w : World) (t1 : Z) :
  Map_wf (jobs (sock w)) = true →
  time (sock (close w).2) = clock w
  ∧ ∃ w1, reconnect w = (Ok tt, w1)
      ∧ time (sock w1) = clock w
      ∧ (t1 - clock w ≤ 10000 →
         stall (with_clock t1 w1) = (Ok tt, with_clock t1 w1))
      ∧ (t1 - clock w > 10000 →
         ∃ l, log (stall (with_clock t1 w1)).2
              = (log w1 ++ (sock w1, timed_out_waiting) :: l)%list).
Proof.
  intros Hwf. split.
  { rewrite close_eq by done. cbv zeta. by destruct (ws (sock w)). }
  destruct (reconnect_eq w Hwf) as (w1 & Hr & Ht & Hc & Hi & Hws & Hclk).
  exists w1. split; [done|]. split; [done|].
  assert (stall (with_clock t1 w1) =
          if t1 - clock w >? 10000 then
            (error "Timed out waiting for connection." >>
             if inbound (sock w1) then destroy else reconnect) (with_clock t1 w1)
          else (Ok tt, with_clock t1 w1)) as Hs.
  { rewrite stall_disconnected; cbn [with_clock sock clock]; [|done|by rewrite Hws].
    by rewrite Ht. }
  rewrite Hs. split; intros Hlt.
  - destruct (Z.gtb_spec (t1 - clock w) 10000); [lia | done].
  - destruct (Z.gtb_spec (t1 - clock w) 10000); [|lia].
    unfold error. rewrite emit_error_then. fold timed_out_waiting.
    destruct (has_listener "error" (sock (with_clock t1 w1))).
    + assert (extends (if inbound (sock w1) then destroy else reconnect)) as He
        by (destruct (inbound (sock w1)); auto with extends).
      destruct (He (logged timed_out_waiting (with_clock t1 w1))) as [l Hl].
      exists l. rewrite Hl. cbn [logged with_log with_clock log sock].
      by rewrite <- app_assoc.
    + by exists [].
Qed.

Lemma close_restarts_connect_timeout_witness :
  time (sock (close stale_world).2) = 50000
  ∧ ∃ w1, reconnect stale_world = (Ok tt, w1)
      ∧ time (sock w1) = 50000
      ∧ stall (with_clock 55000 w1) = (Ok tt, with_clock 55000 w1).
Proof.
  destruct (close_restarts_connect_timeout stale_world 55000 eq_refl)
    as (Hc & w1 & Hr & Ht & Hs & _).
  split; [exact Hc|]. exists w1. repeat split; [exact Hr | exact Ht |].
  apply Hs. cbn. lia.
Defined.

(** ** Opening and the send buffer *)

Lemma andThen_Ok {A B} (m : M A) (k : A → M B) w a w' :
  m w = (Ok a, w') → andThen m k w = k a w'.
Proof. unfold andThen. by intros ->. Qed.

Lemma andThen_Throw {A B} (m : M A) (k : A → M B) w e w' :
  m w = (Throw e, w') → andThen m k w = (Throw e, w').
Proof. unfold andThen. by intros ->. Qed.

Lemma modify_eq f w : modify f w = (Ok tt, with_sock (f (sock w)) w).
Proof. done. Qed.

Lemma this_eq w : this w = (Ok (sock w), w).
Proof. done. Qed.

Lemma effect_eq e w : effect e w = (Ok tt, logged e w).
Proof. done. Qed.

Lemma send_connected f w k :
  connected (sock w) = true → ws (sock w) = Some k →
  send f w = (Ok tt, logged (transmit (sock w) k f) w).
Proof.
  intros Hc Hk. unfold send, andThen, this, transmit. rewrite Hc, Hk. cbn.
  by destruct (frame_binary f && binary (sock w)).
Qed.

Lemma send_disconnected f w :
  connected (sock w) = false →
  send f w = (Ok tt, with_sock (set_buffer (buffer (sock w) ++ [f]) (sock w)) w).
Proof. intros Hc. unfold send, andThen, this. by rewrite Hc. Qed.

Lemma sendPacket_flat (X : Extern) p w :
  buffers p = [] →
  sendPacket X p w = send (mkFrame MESSAGE (DText (Packet_toString X p)) false) w.
Proof.
  intros Hb. unfold sendPacket, sendMessage, sendFrame, andThen. rewrite Hb.
  by destruct (send _ w) as [[[]|e] w'].
Qed.

Lemma flush_connected fs : ∀ w k,
  connected (sock w) = true → ws (sock w) = Some k →
  for_of fs send w
  = (Ok tt, with_log (log w ++ map (λ f, (sock w, transmit (sock w) k f)) fs) w).
Proof.
  induction fs as [|f fs IH]; intros w k Hc Hk.
  - cbn. rewrite app_nil_r. by destruct w.
  - cbn [for_of]. unfold andThen. rewrite (send_connected f w k) by done.
    rewrite (IH _ k) by done. cbn. by rewrite <- app_assoc.
Qed.

(** Counterexample to C2 as stated: an inbound session transmits its
    handshake before the buffered frame, and on either side the buffered
    frame is transmitted when [connected] is already true. *)
Lemma onOpen_not_flushed_before_connected :
  ¬ flushed_before_connected demo_extern accepted_world
  ∧ ¬ flushed_before_connected demo_extern dialing_world.
Proof.
  split; intros (k & fl & rest & Hk & Hlog & Hmap & Hall).
  - destruct fl as [|[s e] [|? ?]]; [done| |done].
    vm_compute in Hlog, Hmap. congruence.
  - destruct fl as [|[s e] [|? ?]]; [done| |done].
    apply Forall_cons in Hall as [Hs _].
    vm_compute in Hlog. injection Hlog as Hs' _ _. subst s. done.
Qed.

(** C2 (amended): when the transport opens, [connected] is set first; an
    inbound session then transmits its handshake; then every buffered frame
    is transmitted in FIFO order, the buffer is emptied and [open] is
    emitted.  A frame submitted afterwards is transmitted after all of
    them. *)
Theorem onOpen_flushes (X : Extern) (w : World) (k : WebSocket) :
  ws (sock w) = Some k →
  let s1 := set_connected true (sock w) in
  let first := if inbound (sock w) then handshake_frames X (sock w) else [] in
  ∃ w', onOpen X w = (Ok tt, w')
    ∧ connected (sock w') = true
    ∧ buffer (sock w') = []
    ∧ log w' = (log w
                ++ map (λ f, (s1, transmit s1 k f)) (first ++ buffer (sock w))
                ++ [(sock w', Emit "open" [])])%list
    ∧ ∀ g, send g w' = (Ok tt, logged (transmit (sock w') k g) w').
Proof.
  intros Hk s1 first.
  set (w1 := with_sock s1 w).
  assert (connected (sock w1) = true) as Hc1 by done.
  assert (ws (sock w1) = Some k) as Hk1 by done.
  assert (∃ w2, when (inbound (sock w)) (sendHandshake X >> sendConnect X) w1 = (Ok tt, w2)
                ∧ w2 = with_log (log w ++ map (λ f, (s1, transmit s1 k f)) first) w1)
    as (w2 & Hw2 & Ew2).
  { subst first. destruct (inbound (sock w)) eqn:Hi; cbn [when].
    - eexists. split; [|reflexivity].
      unfold andThen at 1. unfold sendHandshake, andThen at 1. cbn [this].
      unfold sendOpen, sendFrame. rewrite (send_connected _ w1 k) by done.
      unfold sendConnect. rewrite sendPacket_flat by done.
      rewrite (send_connected _ _ k) by done.
      unfold logged, with_log. cbn. by rewrite <- app_assoc.
    - eexists. split; [done|]. cbn. rewrite app_nil_r. by destruct w. }
  eexists. split.
  - unfold onOpen.
    rewrite (andThen_Ok _ _ _ _ _ (modify_eq _ w)). fold s1 w1.
    rewrite (andThen_Ok _ _ _ _ _ (this_eq w1)).
    change (inbound (sock w1)) with (inbound (sock w)).
    rewrite (andThen_Ok _ _ _ _ _ Hw2), Ew2.
    rewrite (andThen_Ok _ _ _ _ _ (this_eq _)).
    erewrite andThen_Ok by (by apply (flush_connected _ _ k)).
    reflexivity.
  - unfold w1, with_log, with_sock. cbn [sock log clock fresh].
    split; [done|]. split; [done|]. split.
    + rewrite map_app, <- !app_assoc. done.
    + intros g. by rewrite (send_connected g _ k).
Qed.

Lemma onOpen_flushes_witness :
  ∃ w', onOpen demo_extern accepted_world = (Ok tt, w')
        ∧ connected (sock w') = true
        ∧ buffer (sock w') = [].
Proof.
  destruct (onOpen_flushes demo_extern accepted_world demo_ws eq_refl)
    as (w' & Ho & Hc & Hb & _).
  exists w'. repeat split; assumption.
Defined.

(** ** After [destroy] *)

Lemma quiet_ret {A} (a : A) : quiet (ret a).
Proof. by intros w Hc. Qed.

Lemma quiet_throw {A} e : quiet (@throw A e).
Proof. by intros w Hc. Qed.

Lemma quiet_this : quiet this.
Proof. by intros w Hc. Qed.

Lemma quiet_Date_now : quiet Date_now.
Proof. by intros w Hc. Qed.

Lemma quiet_gensym : quiet gensym.
Proof. by intros w Hc. Qed.

Lemma quiet_modify f :
  (∀ s, connected (f s) = connected s) → quiet (modify f).
Proof. intros Hf w Hc. cbn. by rewrite Hf. Qed.

Lemma quiet_andThen {A B} (m : M A) (k : A → M B) :
  quiet m → (∀ a, quiet (k a)) → quiet (andThen m k).
Proof.
  intros Hm Hk w Hc. unfold andThen. destruct (Hm w Hc) as [Hc1 Hl1].
  destruct (m w) as [[a|e] w1]; simpl in *; [|done].
  destruct (Hk a w1 Hc1) as [Hc2 Hl2]. by rewrite Hl2.
Qed.

Lemma quiet_for_of {A} (l : list A) (body : A → M unit) :
  (∀ x, quiet (body x)) → quiet (for_of l body).
Proof.
  intros Hb. induction l as [|x l IH]; simpl.
  - apply quiet_ret.
  - apply quiet_andThen; [apply Hb | by intros _].
Qed.

Lemma quiet_enforce b n t : quiet (enforce b n t).
Proof. unfold enforce. destruct (negb b); [apply quiet_throw | apply quiet_ret]. Qed.

Lemma quiet_assert b m : quiet (assert b m).
Proof. unfold assert. destruct (negb b); [apply quiet_throw | apply quiet_ret]. Qed.

Lemma quiet_send f : quiet (send f).
Proof. intros w Hc. by rewrite send_disconnected. Qed.

Create HintDb quiet discriminated.
#[local] Hint Resolve quiet_ret quiet_throw quiet_this quiet_Date_now
  quiet_gensym quiet_enforce quiet_assert quiet_send : quiet.
#[local] Hint Extern 2 (quiet (andThen _ _)) => apply quiet_andThen; [|intros ?] : quiet.
#[local] Hint Extern 2 (quiet (for_of _ _)) => apply quiet_for_of; intros ? : quiet.
#[local] Hint Extern 2 (quiet (modify _)) => apply quiet_modify; by intros ? : quiet.
#[local] Hint Extern 3 (quiet (match ?v with VFun _ => _ | _ => _ end)) =>
  destruct v : quiet.

Lemma quiet_sendPacket X p : quiet (sendPacket X p).
Proof.
  unfold sendPacket, sendMessage, sendBinary, sendFrame. eauto 20 with quiet.
Qed.
#[local] Hint Resolve quiet_sendPacket : quiet.

Lemma quiet_fire X args : quiet (fire X args).
Proof. unfold fire, sendEvent. eauto 20 with quiet. Qed.

Lemma quiet_call X args : quiet (call X args).
Proof. unfold call, sendCall. eauto 30 with quiet. Qed.

Lemma quiet_listen X e h : quiet (listen X e h).
Proof. unfold listen. eauto 20 with quiet. Qed.

Lemma quiet_hook X e h : quiet (hook X e h).
Proof. unfold hook. eauto 20 with quiet. Qed.




(** ** The blacklist *)

Lemma fire_eq X name rest w :
  fire X (VStr name :: rest) w = send (event_frame X (VStr name :: rest)) w.
Proof.
  unfold fire, sendEvent.
  rewrite bool_decide_eq_true_2 by (simpl; lia).
  cbn [enforce negb andThen ret head default from_option id is_string].
  by rewrite sendPacket_flat.
Qed.

(** Counterexample to C4 as stated: [fire] of the blacklisted name "error"
    is accepted, and the EVENT frame is queued for the peer. *)
Lemma fire_accepts_blacklisted :
  blacklist demo_extern "error" = true
  ∧ fire demo_extern [VStr "error"; VNum 1] (world0 new_Socket)
    = (Ok tt, world0 (set_buffer [event_frame demo_extern [VStr "error"; VNum 1]]
                        new_Socket)).
Proof. split; reflexivity. Qed.

(** C4 (amended): for a blacklisted name, [listen] and [hook] fail and
    change nothing, and the dispatch of an inbound fire-and-forget EVENT
    does not reach the event bus: its only action is to send an ERROR
    packet back.  [fire] has no blacklist check: it sends the EVENT
    packet. *)
Theorem blacklisted_name_refused (X : Extern) (name : string) (w : World) :
  blacklist X name = true →
  (∀ handler, ∃ e, listen X (VStr name) handler w = (Throw e, w))
  ∧ (∀ handler, ∃ e, hook X (VStr name) handler w = (Throw e, w))
  ∧ (∀ rest, handleEvent X (VStr name :: rest) w = send (refusal_frame X name) w)
  ∧ (∀ rest, fire X (VStr name :: rest) w = send (event_frame X (VStr name :: rest)) w).
Proof.
  intros Hb. repeat split.
  - intros handler. unfold listen. cbn [is_string enforce negb str_of].
    rewrite Hb. cbn [andThen ret negb assert].
    destruct (is_function handler); cbn; eauto.
  - intros handler. unfold hook. cbn [is_string enforce negb str_of].
    rewrite Hb. cbn [andThen ret negb assert this].
    destruct (is_function handler); cbn; [|eauto].
    destruct (bool_decide _); cbn; eauto.
  - intros rest. unfold handleEvent.
    cbn [head default from_option id str_of]. rewrite Hb.
    unfold try_catch, throw, sendError, prop.
    cbn [is_nullish new_Error andThen ret get_prop String.eqb Ascii.eqb Bool.eqb assoc
         castMsg castCode castType is_string is_number negb andb Z.eqb Pos.eqb].
    by rewrite sendPacket_flat.
  - intros rest. apply fire_eq.
Qed.

Lemma blacklisted_name_refused_witness :
  (∃ e, listen demo_extern (VStr "error") (VFun (UserFn 1)) (world0 new_Socket)
        = (Throw e, world0 new_Socket))
  ∧ handleEvent demo_extern [VStr "error"; VNum 1] (world0 new_Socket)
    = send (refusal_frame demo_extern "error") (world0 new_Socket).
Proof.
  destruct (blacklisted_name_refused demo_extern "error" (world0 new_Socket) eq_refl)
    as (Hl & _ & He & _).
  split; [exact (Hl _) | exact (He _)].
Defined.

(** ** Transport close *)


Lemma or_str_decide a b : or_str a b = if decide (a = "") then b else a.
Proof.
  unfold or_str. destruct (String.eqb_spec a ""); by case_decide.
Qed.



(** ** Reassembly of binary attachments *)

(** Counterexample to C6 as stated: a PING frame that arrives during a
    reassembly is answered with a PONG; no error is raised and the packet
    stays in reassembly. *)
Lemma ping_during_reassembly :
  ¬ reassembly_rejects demo_extern midway_world ping_frame
  ∧ handleFrame demo_extern ping_frame midway_world
    = (Ok tt, logged (WsSend 0 Text (mkFrame PONG DUndef false)) midway_world).
Proof.
  split; [|reflexivity].
  intros H. destruct H as [e He]; [by eexists | by intros [? _] |].
  vm_compute in He. discriminate.
Qed.

Lemma handleMessage_attachment X f w p :
  packet (sock w) = Some p → frame_binary f = true →
  handleMessage X f w =
    let p' := push_buffer (frame_data f) p in
    if Z.of_nat (length (buffers p')) =? attachments p'
    then handlePacket X p' (assembled w)
    else (Ok tt, reassembling p' w).
Proof.
  intros Hp Hb. unfold handleMessage.
  rewrite (andThen_Ok _ _ _ _ _ (this_eq w)), Hp, Hb. cbn [negb]. cbv zeta.
  rewrite (andThen_Ok _ _ _ _ _ (modify_eq _ w)).
  destruct (_ =? _); [|done].
  by rewrite (andThen_Ok _ _ _ _ _ (modify_eq _ _)).
Qed.

Lemma reassembling_same p w : packet (sock w) = Some p → reassembling p w = w.
Proof.
  intros Hp. destruct w as [s c f l]. unfold reassembling, with_sock; simpl in *.
  f_equal. destruct s; simpl in *. by subst.
Qed.

Lemma with_buffers_same p : with_buffers (buffers p) p = p.
Proof. by destruct p. Qed.

(** Attachments that do not complete the packet are appended in arrival
    order. *)
Lemma feed_attachments X ds : ∀ w p,
  packet (sock w) = Some p →
  Z.of_nat (length (buffers p) + length ds) < attachments p →
  for_of (map attachment ds) (handleFrame X) w
  = (Ok tt, reassembling (with_buffers (buffers p ++ ds) p) w).
Proof.
  induction ds as [|d ds IH]; intros w p Hp Hlen.
  - cbn [map for_of]. rewrite app_nil_r, with_buffers_same.
    by rewrite reassembling_same.
  - cbn [map for_of]. cbn [length] in Hlen.
    assert (handleFrame X (attachment d) w
            = (Ok tt, reassembling (push_buffer d p) w)) as Hd.
    { change (handleFrame X (attachment d) w)
        with (handleMessage X (attachment d) w).
      rewrite (handleMessage_attachment X (attachment d) w p Hp eq_refl). cbv zeta.
      unfold attachment.
      cbn [frame_data push_buffer buffers attachments]. rewrite length_app.
      cbn [length]. destruct (Z.eqb_spec (Z.of_nat (length (buffers p) + 1)) (attachments p));
        [lia | done]. }
    rewrite (andThen_Ok _ _ _ _ _ Hd).
    rewrite (IH _ (push_buffer d p)); [|done|].
    + cbn [push_buffer buffers]. rewrite <- app_assoc. done.
    + cbn [push_buffer buffers attachments]. rewrite length_app. cbn [length]. lia.
Qed.

Lemma for_of_app {A} (l1 l2 : list A) body w :
  for_of (l1 ++ l2) body w = (for_of l1 body >> for_of l2 body) w.
Proof.
  revert w. induction l1 as [|x l1 IH]; intros w; cbn [app for_of].
  - done.
  - unfold andThen. destruct (body x w) as [[[]|e] w1]; [|done].
    rewrite IH. done.
Qed.

Lemma for_of_one {A} (x : A) body w : for_of [x] body w = body x w.
Proof. cbn [for_of]. unfold andThen, ret. by destruct (body x w) as [[[]|e] w1]. Qed.

(** C6 (amended): the session holds at most one packet in reassembly (the
    [packet] slot).  While it does, every arriving MESSAGE frame must be
    binary: a MESSAGE frame that is not raises an error and changes
    nothing; a binary one is appended to [packet.buffers], so attachments
    are kept in arrival order, and when the number of buffers equals
    [packet.attachments] the slot is cleared and the packet dispatched.
    With no packet in reassembly, a textual MESSAGE that decodes to a packet
    with attachments becomes the packet in reassembly and is not
    dispatched.  (Frames of the other types go to their own handlers, see
    [ping_during_reassembly].) *)
Theorem message_reassembly (X : Extern) (w : World) :
  (∀ p, packet (sock w) = Some p →
     (∀ f, frame_type f = MESSAGE → frame_binary f = false →
        handleFrame X f w = (Throw not_an_attachment, w))
     ∧ (∀ f, frame_type f = MESSAGE → frame_binary f = true →
          let p' := push_buffer (frame_data f) p in
          handleFrame X f w =
            if Z.of_nat (length (buffers p')) =? attachments p'
            then handlePacket X p' (assembled w)
            else (Ok tt, reassembling p' w))
     ∧ (∀ ds, Z.of_nat (length (buffers p) + length ds) < attachments p →
          for_of (map attachment ds) (handleFrame X) w
          = (Ok tt, reassembling (with_buffers (buffers p ++ ds) p) w))
     ∧ (∀ ds d, Z.of_nat (length (buffers p) + length ds) + 1 = attachments p →
          for_of (map attachment (ds ++ [d])) (handleFrame X) w
          = handlePacket X (with_buffers (buffers p ++ ds ++ [d]) p) (assembled w)))
  ∧ (packet (sock w) = None →
     ∀ f p, frame_type f = MESSAGE → frame_binary f = false →
       Packet_fromString X (frame_data f) = Ok p →
       handleFrame X f w =
         if attachments p >? 0 then (Ok tt, reassembling p w)
         else handlePacket X p w).
Proof.
  split.
  - intros p Hp. split; [|split; [|split]].
    + intros f Ht Hb. unfold handleFrame. rewrite Ht. unfold handleMessage.
      by rewrite (andThen_Ok _ _ _ _ _ (this_eq w)), Hp, Hb.
    + intros f Ht Hb. unfold handleFrame. rewrite Ht.
      by apply handleMessage_attachment.
    + intros ds Hlen. by apply feed_attachments.
    + intros ds d Hlen. rewrite map_app, for_of_app.
      rewrite (andThen_Ok _ _ _ _ _ (feed_attachments X ds w p Hp ltac:(lia))).
      cbn [map]. rewrite for_of_one.
      change (handleFrame X (attachment d) ?w') with (handleMessage X (attachment d) w').
      rewrite (handleMessage_attachment X (attachment d) _
                 (with_buffers (buffers p ++ ds) p)) by done.
      cbv zeta. cbn [attachment frame_data push_buffer with_buffers buffers attachments
                     packet_type packet_id payload].
      rewrite !length_app. cbn [length].
      destruct (Z.eqb_spec (Z.of_nat (length (buffers p) + length ds + 1)) (attachments p));
        [|lia].
      unfold push_buffer, with_buffers. cbn [buffers packet_type packet_id attachments payload].
      rewrite <- app_assoc. done.
  - intros Hp f p Ht Hb Hd. unfold handleFrame. rewrite Ht. unfold handleMessage.
    rewrite (andThen_Ok _ _ _ _ _ (this_eq w)), Hp, Hb, Hd.
    by destruct (attachments p >? 0).
Qed.

Lemma message_reassembly_witness :
  for_of (map attachment [DBin []]) (handleFrame demo_extern)
         (world0 (set_packet (Some (mkPacket BINARY_EVENT (-1) 3 [DBin []] VNull))
                    new_Socket))
  = (Ok tt, world0 (set_packet (Some (mkPacket BINARY_EVENT (-1) 3 [DBin []; DBin []] VNull))
                      new_Socket)).
Proof.
  destruct (message_reassembly demo_extern
              (world0 (set_packet (Some (mkPacket BINARY_EVENT (-1) 3 [DBin []] VNull))
                         new_Socket))) as [H _].
  destruct (H _ eq_refl) as (_ & _ & Hfeed & _).
  apply (Hfeed [DBin []]). cbn. lia.
Defined.

(** ** Call ids *)

Lemma send_no_transport f w :
  connected (sock w) = true → ws (sock w) = None →
  send f w = (Throw (VErr KAssertionError "" []), w).
Proof. intros Hc Hk. unfold send, andThen, this. by rewrite Hc, Hk. Qed.

(** [call] with an event name, in closed form. *)
Lemma call_eq X name rest w :
  let args := VStr name :: rest in
  let cid := sequence (sock w) in
  let w1 := with_sock (set_sequence (to_uint32 (cid + 1)) (sock w)) w in
  call X args w =
    if Map_has cid (jobs (sock w)) then (Throw id_collision, w1)
    else match send (call_frame X cid args) w1 with
         | (Ok _, w2) =>
             (Ok (fresh w2),
              mkWorld (set_jobs (Map_set cid (new_job (fresh w2) (clock w2))
                                   (jobs (sock w2))) (sock w2))
                      (clock w2) (S (fresh w2)) (log w2))
         | (Throw e, w2) => (Throw e, w2)
         end.
Proof.
  intros args cid w1. unfold call.
  rewrite bool_decide_eq_true_2 by (simpl; lia).
  rewrite (andThen_Ok (enforce true _ _) _ w tt w eq_refl).
  rewrite (andThen_Ok (enforce (is_string (default VUndef (head (VStr name :: rest))))
                            "event" "string") _ w tt w eq_refl).
  rewrite (andThen_Ok _ _ _ _ _ (this_eq w)).
  rewrite (andThen_Ok _ _ _ _ _ (modify_eq _ w)).
  rewrite (andThen_Ok _ _ _ _ _ (modify_eq _ _)).
  rewrite (andThen_Ok _ _ _ _ _ (this_eq _)).
  change (jobs (sock (with_sock _ (with_sock _ w)))) with (jobs (sock w)).
  fold cid. destruct (Map_has cid (jobs (sock w))); [done|].
  cbn [negb assert]. rewrite (andThen_Ok (ret tt) _ _ tt _ eq_refl).
  unfold sendCall. unfold andThen at 1. rewrite sendPacket_flat by done.
  change (send _ _) with (send (call_frame X cid args) w1).
  destruct (send (call_frame X cid args) w1) as [[[]|e] w2]; done.
Qed.

(** C9: [call] takes the current [sequence] as the cid of the call and then
    increments [sequence] modulo 2^32, so the cid after 2^32 - 1 is 0.  When
    a job is already registered under the cid, the call aborts (after the
    increment): nothing is sent and no job is added.  Otherwise the EVENT
    packet goes out under that cid and the new job, which resolves and
    rejects the returned promise, is registered under it. *)
Theorem call_allocates_sequence (X : Extern) (name : string) (rest : list JsVal)
    (w : World) :
  let args := VStr name :: rest in
  let cid := sequence (sock w) in
  let r := call X args w in
  sequence (sock r.2) = (cid + 1) mod 2 ^ 32
  ∧ (cid = 2 ^ 32 - 1 → sequence (sock r.2) = 0)
  ∧ (Map_has cid (jobs (sock w)) = true →
     r = (Throw id_collision,
          with_sock (set_sequence ((cid + 1) mod 2 ^ 32) (sock w)) w))
  ∧ (Map_has cid (jobs (sock w)) = false →
     (connected (sock w) = true → is_Some (ws (sock w))) →
     ∃ p, r.1 = Ok p
       ∧ Map_get cid (jobs (sock r.2)) = Some (new_job p (clock w))
       ∧ (connected (sock w) = false →
          buffer (sock r.2) = (buffer (sock w) ++ [call_frame X cid args])%list
          ∧ log r.2 = log w)
       ∧ (∀ k, connected (sock w) = true → ws (sock w) = Some k →
          (log r.2).*2
          = ((log w).*2 ++ [WsSend (ws_id k) Text (call_frame X cid args)])%list)).
Proof.
  cbv zeta. rewrite call_eq. cbv zeta.
  set (cid := sequence (sock w)). set (args := VStr name :: rest).
  assert (cid = 2 ^ 32 - 1 → to_uint32 (cid + 1) = 0) as Hwrap
    by (by intros ->).
  destruct (Map_has cid (jobs (sock w))) eqn:Hhas.
  { repeat split; [exact Hwrap | discriminate]. }
  destruct (connected (sock w)) eqn:Hc; [destruct (ws (sock w)) as [k|] eqn:Hk|].
  - rewrite (send_connected _ _ k) by done.
    repeat split; [exact Hwrap | discriminate |]. intros _ _.
    eexists. split; [reflexivity|].
    cbn [snd sock clock fresh log jobs set_jobs logged with_log with_sock].
    split; [apply Map_get_set|]. split; [discriminate|].
    intros k' _ [= <-]. by rewrite fmap_app.
  - rewrite send_no_transport by done.
    repeat split; [exact Hwrap | discriminate |].
    intros _ Hws. by destruct (Hws eq_refl).
  - rewrite send_disconnected by done.
    repeat split; [exact Hwrap | discriminate |]. intros _ _.
    eexists. split; [reflexivity|].
    cbn [snd sock clock fresh log jobs set_jobs with_log with_sock].
    split; [apply Map_get_set|]. split; [done | discriminate].
Qed.

Lemma call_allocates_sequence_witness :
  sequence (sock (call demo_extern [VStr "add"; VNum 1] wrapping_world).2) = 0
  ∧ ∃ p, (call demo_extern [VStr "add"; VNum 1] wrapping_world).1 = Ok p
       ∧ Map_get (2 ^ 32 - 1)
           (jobs (sock (call demo_extern [VStr "add"; VNum 1] wrapping_world).2))
         = Some (new_job p 1000).
Proof.
  destruct (call_allocates_sequence demo_extern "add" [VNum 1] wrapping_world)
    as (_ & Hwrap & _ & Hok).
  split; [exact (Hwrap eq_refl)|].
  destruct (Hok eq_refl ltac:(discriminate)) as (p & Hp & Hjob & _).
  exists p. split; [exact Hp | exact Hjob].
Defined.

(** * Further properties of the session *)

(** ** The job table *)

Lemma Map_has_elem id m : Map_has id m = false ↔ id ∉ m.*1.
Proof.
  unfold Map_has. induction m as [|[k j] m IH]; simpl.
  - split; [intros _; apply not_elem_of_nil | done].
  - rewrite not_elem_of_cons. destruct (Z.eqb_spec k id) as [->|Hne].
    + split; [done | by intros [? _]].
    + rewrite IH. split; [intros H; split; [congruence | done] | by intros [_ H]].
Qed.

Lemma Map_wf_NoDup m : Map_wf m = true ↔ NoDup m.*1.
Proof.
  induction m as [|[k j] m IH]; simpl.
  - split; [intros _; constructor | done].
  - rewrite NoDup_cons, andb_true_iff, negb_true_iff, Map_has_elem, IH. done.
Qed.

Lemma Map_delete_app id m1 m2 :
  Map_delete id (m1 ++ m2) = (Map_delete id m1 ++ Map_delete id m2)%list.
Proof.
  induction m1 as [|[k j] m1 IH]; simpl; [done|].
  destruct (k =? id); simpl; by rewrite IH.
Qed.

(** In a table with unique keys, [delete] removes the one entry of the
    key. *)
Lemma Map_delete_entry id job m1 m2 :
  Map_wf (m1 ++ (id, job) :: m2) = true →
  Map_delete id (m1 ++ (id, job) :: m2) = (m1 ++ m2)%list.
Proof.
  rewrite Map_wf_NoDup, fmap_app, fmap_cons. intros Hnd.
  apply NoDup_app in Hnd as (_ & Hdisj & Hnd2).
  apply NoDup_cons in Hnd2 as [Hid2 _].
  rewrite Map_delete_app. cbn [Map_delete]. rewrite Z.eqb_refl.
  rewrite !Map_delete_fresh; [done | by apply Map_has_elem |].
  apply Map_has_elem. intros Hin. apply (Hdisj _ Hin). simpl. left.
Qed.

Lemma Map_has_delete_other k id m :
  Map_has k m = false → Map_has k (Map_delete id m) = false.
Proof.
  unfold Map_has. induction m as [|[k' j'] m IH]; simpl; [done|].
  destruct (k' =? k) eqn:Ek; [done|]. intros H.
  destruct (k' =? id); simpl; [by apply IH|]. rewrite Ek. by apply IH.
Qed.

Lemma Map_wf_delete id m : Map_wf m = true → Map_wf (Map_delete id m) = true.
Proof.
  induction m as [|[k j] m IH]; simpl; [done|].
  intros [Hk Hwf]%andb_prop. apply negb_true_iff in Hk.
  destruct (k =? id); [by apply IH|]. simpl.
  by rewrite Map_has_delete_other, IH.
Qed.

Lemma Map_has_set id id' j m :
  Map_has id' (Map_set id j m) = (id =? id') || Map_has id' m.
Proof.
  unfold Map_has. induction m as [|[k j'] m IH]; simpl.
  - by destruct (id =? id').
  - destruct (Z.eqb_spec k id) as [->|Hne]; simpl.
    + by destruct (id =? id').
    + destruct (k =? id') eqn:E; [by rewrite orb_true_r | done].
Qed.

Lemma Map_wf_set id j m : Map_wf m = true → Map_wf (Map_set id j m) = true.
Proof.
  induction m as [|[k j'] m IH]; simpl; [done|].
  intros [Hk Hwf]%andb_prop. destruct (Z.eqb_spec k id) as [->|Hne]; simpl.
  - by rewrite Hk.
  - rewrite Map_has_set, IH by done. apply negb_true_iff in Hk. rewrite Hk.
    destruct (Z.eqb_spec id k); [congruence | done].
Qed.

Lemma Map_set_fresh id j m : Map_has id m = false → Map_set id j m = (m ++ [(id, j)])%list.
Proof.
  unfold Map_has. induction m as [|[k j'] m IH]; simpl; [done|].
  destruct (k =? id); [done|]. intros H. by rewrite IH.
Qed.

Lemma Map_delete_set_fresh id j m :
  Map_has id m = false → Map_delete id (Map_set id j m) = m.
Proof.
  intros H. rewrite Map_set_fresh, Map_delete_app by done. simpl.
  by rewrite Z.eqb_refl, app_nil_r, Map_delete_fresh.
Qed.

(** ** Teardown *)

Lemma rejects_log_effects s js :
  (rejects_log s js).*2 = map (λ '(_, job), timeout_rejection job) js.
Proof.
  induction js as [|[id job] js IH]; [done|].
  cbn [rejects_log map]. rewrite fmap_cons. by rewrite IH.
Qed.

(** What [close] leaves behind. *)
Lemma close_outcome w :
  Map_wf (jobs (sock w)) = true →
  ∃ w', close w = (Ok tt, w')
    ∧ disconnected (sock w')
    ∧ time (sock w') = clock w
    ∧ (log w').*2 = ((log w).*2 ++ close_effects (sock w))%list
    ∧ ws (sock w') = noop_callbacks <$> ws (sock w)
    ∧ (destroyed (sock w') = destroyed (sock w)
       ∧ inbound (sock w') = inbound (sock w)
       ∧ buffer (sock w') = buffer (sock w)
       ∧ timer (sock w') = timer (sock w)
       ∧ hooks (sock w') = hooks (sock w)
       ∧ events (sock w') = events (sock w))
    ∧ (clock w' = clock w ∧ fresh w' = fresh w).
Proof.
  intros Hwf. rewrite close_eq by done. cbv zeta. unfold close_effects.
  destruct (ws (sock w)) as [k|] eqn:Hk; eexists; (split; [reflexivity|]);
    cbn [sock log clock fresh]; rewrite ?fmap_app, ?rejects_log_effects, ?app_nil_r,
      <- ?app_assoc; unfold disconnected; repeat split; try done.
Qed.

Lemma stop_eq w :
  stop w = match timer (sock w) with
           | Some t => (Ok tt, with_sock (set_timer None (sock w)) (logged (ClearTimeout t) w))
           | None => (Ok tt, w)
           end.
Proof.
  unfold stop. rewrite (andThen_Ok _ _ _ _ _ (this_eq w)).
  by destruct (timer (sock w)).
Qed.

(** What the first [destroy] leaves behind. *)
Lemma destroy_outcome w :
  destroyed (sock w) = false → Map_wf (jobs (sock w)) = true →
  ∃ w', destroy w = (Ok tt, w')
    ∧ disconnected (sock w')
    ∧ destroyed (sock w') = true
    ∧ buffer (sock w') = []
    ∧ timer (sock w') = None
    ∧ (log w').*2 = ((log w).*2 ++ destroy_effects (sock w))%list
    ∧ ws (sock w') = noop_callbacks <$> ws (sock w)
    ∧ (hooks (sock w') = hooks (sock w) ∧ events (sock w') = events (sock w))
    ∧ listeners (sock w') = [("error", Swallow)].
Proof.
  intros Hd Hwf. unfold destroy.
  rewrite (andThen_Ok _ _ _ _ _ (this_eq w)), Hd.
  rewrite (andThen_Ok _ _ _ _ _ (modify_eq _ w)).
  rewrite (andThen_Ok _ _ _ _ _ (modify_eq _ _)).
  set (w0 := with_sock _ (with_sock _ w)).
  destruct (close_outcome w0 Hwf)
    as (w1 & Hc & Hdis & _ & Hlog & Hws & (Hd1 & _ & Hb1 & Ht1 & Hh1 & He1) & _).
  rewrite (andThen_Ok _ _ _ _ _ Hc).
  change (close_effects (sock w0)) with (close_effects (sock w)) in Hlog.
  change (log w0) with (log w) in Hlog.
  change (timer (sock w0)) with (timer (sock w)) in Ht1.
  destruct Hdis as (? & ? & ? & ? & ?).
  unfold destroy_effects, emit.
  assert (Hs := stop_eq w1). rewrite Ht1 in Hs.
  destruct (timer (sock w)) as [t|]; rewrite (andThen_Ok _ _ _ _ _ Hs);
    eexists; (split; [reflexivity|]); unfold disconnected;
    cbn [sock log logged with_log with_sock clock fresh];
    rewrite ?fmap_app, Hlog; cbn [fmap list_fmap snd];
    rewrite <- ?app_assoc;
    repeat split;
    first [assumption | exact Hd1 | exact Hb1 | exact Hws | exact Hh1 | exact He1 | done].
Qed.

Lemma destroy_effects_one_close s :
  length (List.filter is_close_emit (destroy_effects s)) = 1%nat.
Proof.
  unfold destroy_effects, close_effects. rewrite !List.filter_app, !length_app.
  assert (List.filter is_close_emit
            (map (λ '(_, job), timeout_rejection job) (jobs s)) = []) as ->.
  { induction (jobs s) as [|[id job] js IH]; [done | exact IH]. }
  by destruct (ws s), (timer s).
Qed.

(** X1: the first [destroy()] rejects every job, closes the transport,
    stops the timer and emits [close] exactly once; it leaves the session
    destroyed, disconnected, with an empty buffer and no timer.  A second
    [destroy()] changes nothing and emits nothing. *)
Theorem destroy_emits_close_once (w : World) :
  destroyed (sock w) = false → Map_wf (jobs (sock w)) = true →
  ∃ w', destroy w = (Ok tt, w')
    ∧ destroyed (sock w') = true
    ∧ disconnected (sock w')
    ∧ buffer (sock w') = []
    ∧ timer (sock w') = None
    ∧ (log w').*2 = ((log w).*2 ++ destroy_effects (sock w))%list
    ∧ length (List.filter is_close_emit (destroy_effects (sock w))) = 1%nat
    ∧ (destroy >> destroy) w = (Ok tt, w').
Proof.
  intros Hd Hwf.
  destruct (destroy_outcome w Hd Hwf) as (w' & Hw' & Hdis & Hd' & Hb & Ht & Hl & _).
  exists w'. repeat (split; [done|]). split; [apply destroy_effects_one_close|].
  rewrite (andThen_Ok _ _ _ _ _ Hw'). unfold destroy.
  by rewrite (andThen_Ok _ _ _ _ _ (this_eq w')), Hd'.
Qed.

Lemma destroy_emits_close_once_witness :
  ∃ w', (destroy >> destroy) live_world = (Ok tt, w')
    ∧ (log w').*2
      = [Call (PromiseReject 7) [new_Error "Job timed out."];
         Call (PromiseReject 8) [new_Error "Job timed out."];
         WsClose 0; ClearTimeout 4; Emit "close" []; RemoveAllListeners; OnErrorSwallow].
Proof.
  destruct (destroy_emits_close_once live_world eq_refl eq_refl)
    as (w' & _ & _ & _ & _ & _ & Hl & _ & H2).
  exists w'. split; [exact H2 | exact Hl].
Defined.

(** The teardown after a failure, on a session that is not destroyed. *)
Lemma teardown_outcome w :
  destroyed (sock w) = false → Map_wf (jobs (sock w)) = true →
  ∃ w', destroy_or_close w = (Ok tt, w')
    ∧ disconnected (sock w')
    ∧ destroyed (sock w') = inbound (sock w)
    ∧ (log w').*2 = ((log w).*2 ++ teardown_effects (sock w))%list.
Proof.
  intros Hd Hwf. unfold destroy_or_close, teardown_effects.
  rewrite (andThen_Ok _ _ _ _ _ (this_eq w)).
  destruct (inbound (sock w)) eqn:Hi.
  - destruct (destroy_outcome w Hd Hwf) as (w' & Hw' & Hdis & Hd' & _ & _ & Hl & _).
    by exists w'.
  - destruct (close_outcome w Hwf) as (w' & Hw' & Hdis & _ & Hl & _ & (Hd' & _) & _).
    exists w'. by rewrite Hd'.
Qed.

Lemma onClose_eq X event w :
  onClose X event w
  = match close_emits X event (sock w) with
    | Emit "error" args :: _ => (emit "error" args >> destroy_or_close) w
    | _ => destroy_or_close w
    end.
Proof.
  unfold onClose, close_emits. destruct (_ || _); [|done].
  rewrite (andThen_Ok _ _ _ _ _ (this_eq w)).
  destruct (connected (sock w)); cbn [negb when]; [|done].
  by rewrite (andThen_Ok (ret tt) _ w tt w eq_refl).
Qed.

(** [close_emits] is empty or one [error] event. *)
Lemma close_emits_cases X event s :
  close_emits X event s = [] ∨ ∃ e, close_emits X event s = [Emit "error" [e]].
Proof.
  unfold close_emits. destruct (_ || _); [destruct (connected s)|]; eauto.
Qed.

Lemma tagged_effects (s : Socket) (l : list Effect) :
  (map (λ e, (s, e)) l).*2 = l.
Proof. induction l as [|e l IH]; [done|]. cbn [map]. rewrite fmap_cons. by rewrite IH. Qed.



(** ** The liveness tick *)

Lemma Map_wf_remove m1 e m2 :
  Map_wf (m1 ++ e :: m2) = true → Map_wf (m1 ++ m2) = true.
Proof.
  rewrite !Map_wf_NoDup, !fmap_app, fmap_cons. intros Hnd.
  apply NoDup_app in Hnd as (H1 & Hdisj & H2).
  apply NoDup_cons in H2 as [_ H2]. apply NoDup_app. split; [done|].
  split; [|done]. intros x Hx Hx2. apply (Hdisj x Hx). by right.
Qed.

(** The loop of [stall] over the jobs: the expired ones are removed and
    rejected in the order of the table, the others stay. *)
Lemma expire_all now js : ∀ kept w,
  jobs (sock w) = (kept ++ js)%list → Map_wf (kept ++ js) = true →
  ∃ l, for_of js (λ '(id, job), expire_job now id job) w
       = (Ok tt, mkWorld (set_jobs (kept ++ List.filter (λ e, negb (expired now e)) js)
                            (sock w))
                   (clock w) (fresh w) (log w ++ l))
     ∧ l.*2 = map (λ '(_, job), timeout_rejection job) (List.filter (expired now) js).
Proof.
  induction js as [|[id job] js IH]; intros kept w Hjobs Hwf.
  - exists []. cbn [for_of List.filter map]. rewrite !app_nil_r. split; [|done].
    rewrite app_nil_r in Hjobs.
    unfold ret. destruct w as [s c f l]; simpl in *. f_equal. f_equal.
    destruct s; simpl in *. by subst.
  - cbn [for_of List.filter].
    assert (expired now (id, job) = (now - job_time job >? 600000)) as -> by done.
    unfold expire_job at 1.
    destruct (now - job_time job >? 600000) eqn:He; cbn [when negb].
    + assert (reject_job id job w
              = (Ok tt, logged (timeout_rejection job)
                          (with_sock (set_jobs (kept ++ js) (sock w)) w))) as Hr.
      { unfold reject_job. rewrite (andThen_Ok _ _ _ _ _ (modify_eq _ w)).
        cbn beta. by rewrite Hjobs, Map_delete_entry. }
      rewrite (andThen_Ok _ _ _ _ _ Hr).
      destruct (IH kept (logged (timeout_rejection job)
                           (with_sock (set_jobs (kept ++ js) (sock w)) w)))
        as (l & Hl & Heff); [done | by eapply Map_wf_remove |].
      eexists. split.
      * rewrite Hl. cbn [logged with_log with_sock sock clock fresh log].
        rewrite <- app_assoc. reflexivity.
      * cbn [map app]. by rewrite fmap_cons, Heff.
    + rewrite (andThen_Ok (ret tt) _ w tt w eq_refl).
      destruct (IH (kept ++ [(id, job)])%list w) as (l & Hl & Heff).
      * by rewrite <- app_assoc.
      * by rewrite <- app_assoc.
      * exists l. split; [|done]. rewrite Hl. by rewrite <- app_assoc.
Qed.

(** [stall] on a connected session. *)
Lemma stall_connected w k :
  connected (sock w) = true → ws (sock w) = Some k →
  Map_wf (jobs (sock w)) = true →
  ∃ l, l.*2 = map (λ '(_, job), timeout_rejection job)
                (List.filter (expired (clock w)) (jobs (sock w)))
    ∧ let live := List.filter (λ e, negb (expired (clock w) e)) (jobs (sock w)) in
      let w1 := mkWorld (set_jobs live (sock w)) (clock w) (fresh w) (log w ++ l) in
      stall w =
        if negb (challenge (sock w)) then
          (Ok tt, logged (transmit (sock w1) k ping_frame)
                    (with_sock (set_lastPing (clock w) (set_challenge true (sock w1))) w1))
        else if clock w - lastPing (sock w) >? pingTimeout (sock w) then
          (error "Connection is stalling (ping)." >> destroy_or_close) w1
        else (Ok tt, w1).
Proof.
  intros Hc Hk Hwf.
  destruct (expire_all (clock w) (jobs (sock w)) [] w eq_refl Hwf) as (l & Hl & Heff).
  exists l. split; [done|]. cbv zeta. unfold stall.
  rewrite (andThen_Ok Date_now _ w (clock w) w eq_refl).
  rewrite (andThen_Ok _ _ _ _ _ (this_eq w)).
  rewrite Hk, Hc. rewrite bool_decide_eq_true_2 by eauto.
  rewrite (andThen_Ok (assert true "") _ w tt w eq_refl). cbn [negb].
  rewrite (andThen_Ok _ _ _ _ _ Hl). cbn [app].
  rewrite (andThen_Ok _ _ _ _ _ (this_eq _)). cbn [sock].
  change (challenge (set_jobs _ (sock w))) with (challenge (sock w)).
  change (lastPing (set_jobs _ (sock w))) with (lastPing (sock w)).
  change (pingTimeout (set_jobs _ (sock w))) with (pingTimeout (sock w)).
  destruct (challenge (sock w)); cbn [negb].
  - by destruct (_ >? _).
  - rewrite (andThen_Ok _ _ _ _ _ (modify_eq _ _)).
    rewrite (andThen_Ok _ _ _ _ _ (modify_eq _ _)).
    unfold sendPing, sendFrame. by rewrite (send_connected _ _ k).
Qed.

Lemma Map_has_filter k f m :
  Map_has k m = false → Map_has k (List.filter f m) = false.
Proof.
  unfold Map_has. induction m as [|[k' j] m IH]; simpl; [done|].
  destruct (k' =? k) eqn:Ek; [done|]. intros H.
  destruct (f (k', j)); simpl; [rewrite Ek|]; by apply IH.
Qed.

Lemma Map_wf_filter f m : Map_wf m = true → Map_wf (List.filter f m) = true.
Proof.
  induction m as [|[k j] m IH]; simpl; [done|].
  intros [Hk Hwf]%andb_prop. apply negb_true_iff in Hk.
  destruct (f (k, j)); simpl; [|by apply IH].
  by rewrite Map_has_filter, IH.
Qed.

(** X3: a tick on a connected session whose ping is not overdue removes
    the jobs issued more than 600000 ms ago, rejecting each with "Job timed
    out." in the order of the table, and keeps the others in order; it
    sends a PING when no challenge is outstanding and stays connected. *)
Theorem stall_expires_old_jobs (w : World) (k : WebSocket) :
  connected (sock w) = true → ws (sock w) = Some k →
  Map_wf (jobs (sock w)) = true →
  (challenge (sock w) = true → clock w - lastPing (sock w) ≤ pingTimeout (sock w)) →
  ∃ w', stall w = (Ok tt, w')
    ∧ jobs (sock w') = List.filter (λ e, negb (expired (clock w) e)) (jobs (sock w))
    ∧ (log w').*2
      = ((log w).*2
         ++ map (λ '(_, job), timeout_rejection job)
              (List.filter (expired (clock w)) (jobs (sock w)))
         ++ (if challenge (sock w) then [] else [WsSend (ws_id k) Text ping_frame]))%list
    ∧ connected (sock w') = true.
Proof.
  intros Hc Hk Hwf Hping.
  destruct (stall_connected w k Hc Hk Hwf) as (l & Heff & Hs). cbv zeta in Hs.
  rewrite Hs. destruct (challenge (sock w)); cbn [negb].
  - destruct (Z.gtb_spec (clock w - lastPing (sock w)) (pingTimeout (sock w)));
      [specialize (Hping eq_refl); lia|].
    eexists. split; [reflexivity|]. cbn [sock log].
    by rewrite fmap_app, Heff, app_nil_r.
  - eexists. split; [reflexivity|]. cbn [sock log logged with_log with_sock].
    by rewrite !fmap_app, Heff, <- app_assoc.
Qed.

Lemma stall_expires_old_jobs_witness :
  ∃ w', stall aged_world = (Ok tt, w')
    ∧ jobs (sock w') = [(1, mkJob (PromiseResolve 8) (PromiseReject 8) 900000)]
    ∧ (log w').*2 = [Call (PromiseReject 7) [new_Error "Job timed out."];
                     WsSend 0 Text ping_frame].
Proof.
  destruct (stall_expires_old_jobs aged_world demo_ws eq_refl eq_refl eq_refl
              ltac:(discriminate)) as (w' & Hs & Hj & Hl & _).
  exists w'. repeat split; assumption.
Defined.

(** X4: the ping challenge.  A tick on a connected session without
    outstanding challenge sends a PING, sets [challenge] and records the
    time in [lastPing]; the PONG that follows clears [challenge] and does
    nothing else. *)
Theorem ping_answered_by_pong (X : Extern) (w : World) (k : WebSocket)
    (data : FData) (bin : bool) :
  connected (sock w) = true → ws (sock w) = Some k →
  Map_wf (jobs (sock w)) = true → challenge (sock w) = false →
  ∃ w1 l, stall w = (Ok tt, w1)
    ∧ l.*2 = map (λ '(_, job), timeout_rejection job)
               (List.filter (expired (clock w)) (jobs (sock w)))
    ∧ challenge (sock w1) = true
    ∧ lastPing (sock w1) = clock w
    ∧ log w1 = (log w ++ l ++ [(sock w1, WsSend (ws_id k) Text ping_frame)])%list
    ∧ handleFrame X (mkFrame PONG data bin) w1
      = (Ok tt, with_sock (set_challenge false (sock w1)) w1)
    ∧ lastPing (set_challenge false (sock w1)) = clock w.
Proof.
  intros Hc Hk Hwf Hch.
  destruct (stall_connected w k Hc Hk Hwf) as (l & Heff & Hs). cbv zeta in Hs.
  rewrite Hs, Hch. cbn [negb]. eexists _, l. split; [reflexivity|].
  split; [done|].
  cbn [sock log logged with_log with_sock]. repeat split.
  by rewrite <- app_assoc.
Qed.

Lemma ping_answered_by_pong_witness :
  ∃ w1, stall aged_world = (Ok tt, w1)
    ∧ challenge (sock w1) = true
    ∧ lastPing (sock w1) = 1000000
    ∧ handleFrame demo_extern pong_frame w1
      = (Ok tt, with_sock (set_challenge false (sock w1)) w1).
Proof.
  destruct (ping_answered_by_pong demo_extern aged_world demo_ws DUndef false
              eq_refl eq_refl eq_refl eq_refl)
    as (w1 & l & Hs & _ & Hc & Hl & _ & Hp & _).
  exists w1. repeat split; assumption.
Defined.





(** ** Frames *)

Lemma enforce_true n t w : enforce true n t w = (Ok tt, w).
Proof. done. Qed.

Lemma enforce_false n t w : enforce false n t w = (Throw (type_error n t), w).
Proof. done. Qed.

(** X8: an OPEN frame is all or nothing.  When the payload is an object
    whose [pingInterval] and [pingTimeout] are both unsigned 32-bit
    integers, both are stored and nothing else changes; otherwise a type
    error is raised and neither is stored. *)
Theorem handleOpen_all_or_nothing (X : Extern) (f : Frame) (json : JsVal) (w : World) :
  frame_type f = OPEN → frame_binary f = false →
  JSON_parse X (frame_data f) = Ok json →
  (valid_handshake json = true →
   handleFrame X f w
   = (Ok tt, with_sock (set_pingTimeout (num_of (get_prop json "pingTimeout"))
                          (set_pingInterval (num_of (get_prop json "pingInterval"))
                             (sock w))) w)
   ∧ 0 ≤ num_of (get_prop json "pingInterval") < 2 ^ 32
   ∧ 0 ≤ num_of (get_prop json "pingTimeout") < 2 ^ 32)
  ∧ (valid_handshake json = false →
     ∃ name type, handleFrame X f w = (Throw (type_error name type), w)).
Proof.
  intros Ht Hb Hj. unfold handleFrame, handleOpen, valid_handshake.
  rewrite Ht, Hb, Hj. split.
  - intros [[Hobj Hi]%andb_prop Hto]%andb_prop. rewrite Hobj, Hi, Hto.
    rewrite !(andThen_Ok _ _ _ _ _ (enforce_true _ _ _)).
    rewrite (andThen_Ok _ _ _ _ _ (modify_eq _ _)). split; [done|].
    unfold is_uint32 in *.
    destruct (get_prop json "pingInterval"), (get_prop json "pingTimeout");
      try done. cbn [num_of]. lia.
  - intros Hv. destruct (truthy json && is_object json).
    + rewrite (andThen_Ok _ _ _ _ _ (enforce_true _ _ _)).
      destruct (is_uint32 (get_prop json "pingInterval")).
      * rewrite (andThen_Ok _ _ _ _ _ (enforce_true _ _ _)).
        cbn [andb] in Hv. rewrite Hv. eexists _, _.
        by rewrite (andThen_Throw _ _ _ _ _ (enforce_false _ _ _)).
      * eexists _, _. by rewrite (andThen_Throw _ _ _ _ _ (enforce_false _ _ _)).
    + eexists _, _. by rewrite (andThen_Throw _ _ _ _ _ (enforce_false _ _ _)).
Qed.

Lemma handleOpen_all_or_nothing_witness :
  handleFrame echo_extern (mkFrame OPEN (DText "handshake") false)
              (world0 (set_pingInterval 1 new_Socket))
  = (Ok tt, world0 new_Socket).
Proof.
  destruct (handleOpen_all_or_nothing echo_extern (mkFrame OPEN (DText "handshake") false)
              (handshake_object new_Socket) (world0 (set_pingInterval 1 new_Socket))
              eq_refl eq_refl eq_refl) as [H _].
  exact (proj1 (H eq_refl)).
Defined.

(** X9: the handshake round trip.  When JSON parsing inverts JSON
    printing on the handshake of an inbound session whose ping parameters
    are unsigned 32-bit integers, the session that handles the OPEN frame
    sent by [sendHandshake] ends up with the same [pingInterval] and
    [pingTimeout]. *)
Theorem handshake_adopted (X : Extern) (server client : World) (k : WebSocket) :
  connected (sock server) = true → ws (sock server) = Some k →
  0 ≤ pingInterval (sock server) < 2 ^ 32 →
  0 ≤ pingTimeout (sock server) < 2 ^ 32 →
  JSON_parse X (DText (JSON_stringify X (handshake_object (sock server))))
  = Ok (handshake_object (sock server)) →
  ∃ f client', sendHandshake X server = (Ok tt, logged (WsSend (ws_id k) Text f) server)
    ∧ handleFrame X f client = (Ok tt, client')
    ∧ pingInterval (sock client') = pingInterval (sock server)
    ∧ pingTimeout (sock client') = pingTimeout (sock server)
    ∧ log client' = log client.
Proof.
  intros Hc Hk Hi Ht Hj. eexists _, _. split; [|split].
  - unfold sendHandshake. rewrite (andThen_Ok _ _ _ _ _ (this_eq server)).
    unfold sendOpen, sendFrame. rewrite (send_connected _ _ k) by done. reflexivity.
  - unfold handleFrame, handleOpen. cbn [frame_type frame_binary frame_data].
    fold (handshake_object (sock server)). rewrite Hj.
    cbn [handshake_object truthy is_object typeof andb get_prop assoc String.eqb
         Ascii.eqb Bool.eqb is_uint32 num_of].
    assert ((0 <=? pingInterval (sock server)) && (pingInterval (sock server) <? 2 ^ 32)
            = true) as -> by (apply andb_true_intro; split; [apply Z.leb_le | apply Z.ltb_lt]; lia).
    assert ((0 <=? pingTimeout (sock server)) && (pingTimeout (sock server) <? 2 ^ 32)
            = true) as -> by (apply andb_true_intro; split; [apply Z.leb_le | apply Z.ltb_lt]; lia).
    rewrite !(andThen_Ok _ _ _ _ _ (enforce_true _ _ _)).
    rewrite (andThen_Ok _ _ _ _ _ (modify_eq _ _)). reflexivity.
  - done.
Qed.

Lemma handshake_adopted_witness :
  ∃ f client', handleFrame echo_extern f (world0 (set_pingTimeout 5 new_Socket))
               = (Ok tt, client')
    ∧ pingTimeout (sock client') = 60000.
Proof.
  destruct (handshake_adopted echo_extern idle_world (world0 (set_pingTimeout 5 new_Socket))
              demo_ws eq_refl eq_refl ltac:(cbn; lia) ltac:(cbn; lia) eq_refl)
    as (f & c & _ & Hf & _ & Ht & _).
  exists f, c. split; [exact Hf | exact Ht].
Defined.

(** ** Packets on the wire *)

Lemma for_of_map {A B} (g : A → B) (l : list A) (body : B → M unit) w :
  for_of (map g l) body w = for_of l (λ x, body (g x)) w.
Proof.
  revert w. induction l as [|x l IH]; intros w; cbn [map for_of]; [done|].
  unfold andThen. destruct (body (g x) w) as [[[]|e] w1]; [apply IH | done].
Qed.

Lemma buffer_all fs : ∀ w,
  connected (sock w) = false →
  for_of fs send w = (Ok tt, with_sock (set_buffer (buffer (sock w) ++ fs) (sock w)) w).
Proof.
  induction fs as [|f fs IH]; intros w Hc.
  - cbn [for_of]. rewrite app_nil_r. unfold ret. f_equal.
    destruct w as [s c n l]; unfold with_sock; simpl. f_equal. by destruct s.
  - cbn [for_of]. rewrite (andThen_Ok _ _ _ _ _ (send_disconnected f w Hc)).
    rewrite IH by done. cbn [with_sock sock clock fresh log buffer set_buffer].
    by rewrite <- app_assoc.
Qed.

Lemma sendPacket_frames X p w :
  sendPacket X p w = for_of (packet_frames X p) send w.
Proof.
  unfold sendPacket, packet_frames, sendMessage, sendBinary, sendFrame.
  cbn [for_of]. unfold andThen. destruct (send _ w) as [[[]|e] w1]; [|done].
  by rewrite for_of_map.
Qed.

(** X10: a packet goes out as its textual MESSAGE frame followed by its
    buffers as binary MESSAGE frames, in order and without anything in
    between.  A connected session transmits them, the binary ones raw when
    the peer takes binary and as text otherwise; a session that is not
    connected appends them to its buffer. *)
Theorem sendPacket_order (X : Extern) (p : Packet) (w : World) :
  (∀ k, connected (sock w) = true → ws (sock w) = Some k →
     sendPacket X p w
     = (Ok tt, with_log (log w ++ map (λ f, (sock w, transmit (sock w) k f))
                                    (packet_frames X p)) w)
     ∧ ∀ d, transmit (sock w) k (attachment d)
            = WsSend (ws_id k) (if binary (sock w) then Raw else Text) (attachment d))
  ∧ (connected (sock w) = false →
     sendPacket X p w
     = (Ok tt, with_sock (set_buffer (buffer (sock w) ++ packet_frames X p) (sock w)) w)).
Proof.
  split.
  - intros k Hc Hk. rewrite sendPacket_frames. split; [by apply flush_connected | done].
  - intros Hc. rewrite sendPacket_frames. by apply buffer_all.
Qed.

Lemma sendPacket_order_witness :
  sendPacket echo_extern blob_packet idle_world
  = (Ok tt, with_log [(sock idle_world, WsSend 0 Text (mkFrame MESSAGE (DText "blob") false));
                      (sock idle_world, WsSend 0 Text (attachment (DBin [])));
                      (sock idle_world, WsSend 0 Text (attachment (DBin [Byte.x78])))]
              idle_world).
Proof.
  destruct (sendPacket_order echo_extern blob_packet idle_world) as [H _].
  exact (proj1 (H demo_ws eq_refl eq_refl)).
Defined.

Lemma assembled_same w : packet (sock w) = None → assembled w = w.
Proof.
  intros Hp. destruct w as [s c n l]. unfold assembled, with_sock; simpl in *.
  f_equal. destruct s; simpl in *. by subst.
Qed.

(** The last attachment dispatches the packet. *)
Lemma feed_last X ds d w p :
  packet (sock w) = Some p →
  Z.of_nat (length (buffers p) + length ds) + 1 = attachments p →
  for_of (map attachment (ds ++ [d])) (handleFrame X) w
  = handlePacket X (with_buffers (buffers p ++ ds ++ [d]) p) (assembled w).
Proof.
  intros Hp Hlen. rewrite map_app, for_of_app.
  rewrite (andThen_Ok _ _ _ _ _ (feed_attachments X ds w p Hp ltac:(lia))).
  cbn [map]. rewrite for_of_one.
  change (handleFrame X (attachment d) ?w') with (handleMessage X (attachment d) w').
  rewrite (handleMessage_attachment X (attachment d) _
             (with_buffers (buffers p ++ ds) p)) by done.
  cbv zeta. cbn [attachment frame_data push_buffer with_buffers buffers attachments
                 packet_type packet_id payload].
  rewrite !length_app. cbn [length].
  destruct (Z.eqb_spec (Z.of_nat (length (buffers p) + length ds + 1)) (attachments p));
    [|lia].
  unfold push_buffer, with_buffers.
  cbn [buffers packet_type packet_id attachments payload].
  by rewrite <- app_assoc.
Qed.

(** X11: reassembly inverts [sendPacket].  When the packet codec decodes
    the text of a packet to the packet without its buffers, a session with
    no packet in reassembly that handles the frames of the packet in order
    dispatches exactly that packet, buffers included, and nothing else. *)
Theorem reassembly_inverts_sendPacket (X : Extern) (p : Packet) (w : World) :
  packet (sock w) = None →
  attachments p = Z.of_nat (length (buffers p)) →
  Packet_fromString X (DText (Packet_toString X p)) = Ok (with_buffers [] p) →
  for_of (packet_frames X p) (handleFrame X) w = handlePacket X p w.
Proof.
  intros Hp Hn Hdec. unfold packet_frames. cbn [for_of].
  assert (handleFrame X (mkFrame MESSAGE (DText (Packet_toString X p)) false) w
          = if attachments p >? 0 then (Ok tt, reassembling (with_buffers [] p) w)
            else handlePacket X (with_buffers [] p) w) as Hfirst.
  { unfold handleFrame, handleMessage. cbn [frame_type frame_binary frame_data].
    rewrite (andThen_Ok _ _ _ _ _ (this_eq w)), Hp, Hdec. cbn [with_buffers attachments].
    by destruct (attachments p >? 0). }
  assert (∀ l : list FData, l = [] ∨ ∃ bs b, l = (bs ++ [b])%list) as Hcases.
  { intros l. induction l using rev_ind; [by left | right; eauto]. }
  destruct (Hcases (buffers p)) as [Hb | (bs & b & Hb)].
  - rewrite Hb in Hn |- *. cbn [map for_of]. unfold andThen. rewrite Hfirst, Hn.
    cbn [length].
    assert (with_buffers [] p = p) as -> by (rewrite <- Hb; apply with_buffers_same).
    by destruct (handlePacket X p w) as [[[]|e] w1].
  - rewrite Hb in Hn |- *. unfold andThen. rewrite Hfirst.
    destruct (Z.gtb_spec (attachments p) 0) as [_|Hle];
      [|rewrite Hn, length_app in Hle; cbn in Hle; lia].
    rewrite (feed_last X bs b _ (with_buffers [] p)).
    + assert (with_buffers (buffers (with_buffers [] p) ++ bs ++ [b]) (with_buffers [] p)
              = p) as -> by (clear -Hb; destruct p; cbn in *; by subst).
      assert (assembled (reassembling (with_buffers [] p) w) = assembled w) as -> by done.
      by rewrite assembled_same.
    + done.
    + cbn [with_buffers buffers attachments length]. rewrite Hn, length_app. cbn. lia.
Qed.

Lemma reassembly_inverts_sendPacket_witness :
  for_of (packet_frames echo_extern blob_packet) (handleFrame echo_extern) idle_world
  = handlePacket echo_extern blob_packet idle_world.
Proof.
  apply (reassembly_inverts_sendPacket echo_extern blob_packet idle_world);
    reflexivity.
Defined.

(** ** Remote calls *)

Lemma handleMessage_text X f p w :
  frame_type f = MESSAGE → frame_binary f = false → packet (sock w) = None →
  Packet_fromString X (frame_data f) = Ok p → attachments p = 0 →
  handleFrame X f w = handlePacket X p w.
Proof.
  intros Ht Hb Hp Hdec Ha. unfold handleFrame, handleMessage.
  by rewrite Ht, (andThen_Ok _ _ _ _ _ (this_eq w)), Hp, Hb, Hdec, Ha.
Qed.

Lemma handlePacket_event_eq X p name rest w :
  packet_type p = EVENT ∨ packet_type p = BINARY_EVENT →
  getData p = VArr (VStr name :: rest) →
  handlePacket X p w =
    if packet_id p =? -1 then handleEvent X (VStr name :: rest) w
    else handleCall X (packet_id p) (VStr name :: rest) w.
Proof.
  intros Ht Hd. unfold handlePacket.
  destruct Ht as [-> | ->]; cbv zeta; rewrite Hd; cbn [isArray];
    rewrite (andThen_Ok _ _ _ _ _ (enforce_true _ _ _));
    rewrite bool_decide_eq_true_2 by (simpl; lia);
    rewrite (andThen_Ok _ _ _ _ _ (enforce_true _ _ _));
    rewrite (andThen_Ok (enforce (is_string (default VUndef (head (VStr name :: rest))))
                                 "event" "string") _ w tt w eq_refl);
    by destruct (packet_id p =? -1).
Qed.

Lemma sendAck_eq X id data w :
  sendAck X id data w = send (text_frame X (ack_packet_of id data)) w.
Proof. unfold sendAck. by rewrite sendPacket_flat. Qed.

Lemma sendError_eq X id e w :
  is_nullish e = false →
  sendError X id e w =
    send (text_frame X (if id =? -1 then error_packet_of e else nack_packet_of id e)) w.
Proof.
  intros Hn. unfold sendError, prop. rewrite Hn. cbn [andThen ret].
  destruct (id =? -1); by rewrite sendPacket_flat.
Qed.

Lemma handleCall_eq X cid name rest h w :
  hooks (sock w) !! name = Some h →
  handleCall X cid (VStr name :: rest) w =
    match apply_fn X h rest with
    | Ok r => sendAck X cid (nullish_to_null r) (logged (Call h rest) w)
    | Throw e => sendError X cid e (logged (Call h rest) w)
    end.
Proof.
  intros Hh. unfold handleCall. cbn [head tail default from_option id str_of].
  rewrite (andThen_Ok _ _ _ _ _ (this_eq w)). cbn [str_of]. rewrite Hh.
  rewrite (andThen_Ok _ _ _ _ _ (effect_eq _ w)).
  by destruct (apply_fn X h rest).
Qed.

Lemma received_wire_error e : received_error (wire_error e) = received_error e.
Proof.
  unfold received_error, wire_error.
  cbn [get_prop assoc String.eqb Ascii.eqb Bool.eqb].
  rewrite <- !castCode_coerced, <- !castType_coerced.
  f_equal; [|f_equal; [|f_equal]].
  - by destruct (get_prop e "message").
  - by destruct (get_prop e "code").
  - by destruct (get_prop e "type").
Qed.

Lemma nullish_to_null_idemp v : nullish_to_null (nullish_to_null v) = nullish_to_null v.
Proof. by destruct v. Qed.

(** What [call] does on a connected session with a free id. *)
Lemma call_connected X name rest w k :
  connected (sock w) = true → ws (sock w) = Some k →
  Map_has (sequence (sock w)) (jobs (sock w)) = false →
  let id := sequence (sock w) in
  let args := VStr name :: rest in
  let s1 := set_sequence (to_uint32 (id + 1)) (sock w) in
  call X args w
  = (Ok (fresh w),
     mkWorld (set_jobs (Map_set id (new_job (fresh w) (clock w)) (jobs (sock w))) s1)
       (clock w) (S (fresh w))
       (log w ++ [(s1, WsSend (ws_id k) Text (call_frame X id args))])).
Proof.
  intros Hc Hk Hfree. cbv zeta. rewrite call_eq. cbv zeta. rewrite Hfree.
  by rewrite (send_connected _ _ k).
Qed.

(** The reply to a call comes back to the caller: the job registered by
    [call] is removed and its promise settled. *)
Lemma reply_settles_call X name rest w k reply_packet :
  connected (sock w) = true → ws (sock w) = Some k → packet (sock w) = None →
  Map_has (sequence (sock w)) (jobs (sock w)) = false →
  0 ≤ sequence (sock w) →
  packet_type reply_packet = ACK → packet_id reply_packet = sequence (sock w) →
  attachments reply_packet = 0 → isArray (getData reply_packet) = true →
  Packet_fromString X (DText (Packet_toString X reply_packet)) = Ok reply_packet →
  let err := ack_item (getData reply_packet) 0 in
  (truthy err = true → is_object err = true) →
  ∃ c1 c2,
    call X (VStr name :: rest) w = (Ok (fresh w), c1)
    ∧ (log c1).*2
      = ((log w).*2
         ++ [WsSend (ws_id k) Text
               (text_frame X (call_packet_of (sequence (sock w)) (VStr name :: rest)))])%list
    ∧ handleFrame X (text_frame X reply_packet) c1 = (Ok tt, c2)
    ∧ (log c2).*2
      = ((log c1).*2
         ++ [if truthy err
             then Call (PromiseReject (fresh w)) [received_error err]
             else Call (PromiseResolve (fresh w))
                    [nullish_to_null (ack_item (getData reply_packet) 1)]])%list
    ∧ jobs (sock c2) = jobs (sock w).
Proof.
  intros Hc Hk Hp Hfree Hid Hty Hrid Hatt Harr Hdec err Hobj.
  assert (Hcall := call_connected X name rest w k Hc Hk Hfree). cbv zeta in Hcall.
  match type of Hcall with _ = (_, ?c) => set (c1 := c) in * end.
  assert (handleFrame X (text_frame X reply_packet) c1
          = if truthy err
            then handleError (sequence (sock w)) err c1
            else handleAck (sequence (sock w))
                   (nullish_to_null (ack_item (getData reply_packet) 1)) c1) as Hf.
  { rewrite (handleMessage_text X _ reply_packet) by done.
    rewrite handlePacket_ack_eq by auto. cbv zeta. fold err. rewrite Hrid.
    destruct (Z.eqb_spec (sequence (sock w)) (-1)); [lia|].
    rewrite Harr, orb_true_r. cbn [negb].
    destruct (truthy err); [|done]. by rewrite Hobj. }
  destruct (truthy err) eqn:He.
  - rewrite handleError_eq in Hf by by apply truthy_not_nullish.
    destruct (Z.eqb_spec (sequence (sock w)) (-1)); [lia|].
    unfold c1 at 2 in Hf. cbn [sock jobs set_jobs] in Hf. rewrite Map_get_set in Hf. cbv zeta in Hf.
    eexists c1, _. split; [exact Hcall|].
    split; [unfold c1; cbn [log]; by rewrite fmap_app|].
    split; [exact Hf|]. unfold c1.
    cbn [snd sock log logged with_log with_sock jobs set_jobs].
    split; [by rewrite !fmap_app | by apply Map_delete_set_fresh].
  - rewrite handleAck_eq in Hf.
    unfold c1 at 2 in Hf. cbn [sock jobs set_jobs] in Hf. rewrite Map_get_set in Hf. cbv zeta in Hf.
    eexists c1, _. split; [exact Hcall|].
    split; [unfold c1; cbn [log]; by rewrite fmap_app|].
    split; [exact Hf|]. unfold c1.
    cbn [snd sock log logged with_log with_sock jobs set_jobs].
    split; [by rewrite !fmap_app | by apply Map_delete_set_fresh].
Qed.

(** The session that serves a call answers with one ACK packet. *)
Lemma call_served X id name rest h w k :
  connected (sock w) = true → ws (sock w) = Some k → packet (sock w) = None →
  id ≠ -1 → hooks (sock w) !! name = Some h →
  Packet_fromString X (DText (Packet_toString X (call_packet_of id (VStr name :: rest))))
  = Ok (call_packet_of id (VStr name :: rest)) →
  (∀ e, apply_fn X h rest = Throw e → is_nullish e = false) →
  handleFrame X (text_frame X (call_packet_of id (VStr name :: rest))) w
  = (Ok tt,
     with_log (log w ++ [(sock w, Call h rest);
                         (sock w, WsSend (ws_id k) Text
                            (text_frame X
                               match apply_fn X h rest with
                               | Ok r => ack_packet_of id (nullish_to_null r)
                               | Throw e => nack_packet_of id e
                               end))]) w).
Proof.
  intros Hc Hk Hp Hid Hh Hdec Hthrow.
  rewrite (handleMessage_text X _ (call_packet_of id (VStr name :: rest))) by done.
  rewrite (handlePacket_event_eq X _ name rest) by (by left || done).
  cbn [call_packet_of packet_id]. destruct (Z.eqb_spec id (-1)); [done|].
  rewrite (handleCall_eq X id name rest h) by done.
  destruct (apply_fn X h rest) as [r|e].
  - rewrite sendAck_eq, (send_connected _ _ k) by done.
    unfold logged, with_log. cbn. by rewrite <- app_assoc.
  - rewrite sendError_eq by by apply Hthrow.
    destruct (Z.eqb_spec id (-1)); [done|].
    rewrite (send_connected _ _ k) by done.
    unfold logged, with_log. cbn. by rewrite <- app_assoc.
Qed.



(** X13: the round trip of a failed call.  When the hook of the peer
    throws an object [e], the peer answers with an ACK packet whose first
    element carries the coerced message, code and type of [e], and the
    promise returned by [call] is rejected with an Error that has exactly
    these: the second coercion on receipt changes nothing. *)
Theorem call_error_round_trip (X : Extern) (client server : World) (name : string)
    (rest : list JsVal) (k ks : WebSocket) (h : Fn) (e : JsVal) :
  let id := sequence (sock client) in
  let args := VStr name :: rest in
  let reply := nack_packet_of id e in
  connected (sock client) = true → ws (sock client) = Some k →
  packet (sock client) = None →
  Map_has id (jobs (sock client)) = false → 0 ≤ id →
  connected (sock server) = true → ws (sock server) = Some ks →
  packet (sock server) = None →
  hooks (sock server) !! name = Some h →
  apply_fn X h rest = Throw e → is_nullish e = false →
  Packet_fromString X (DText (Packet_toString X (call_packet_of id args)))
  = Ok (call_packet_of id args) →
  Packet_fromString X (DText (Packet_toString X reply)) = Ok reply →
  ∃ c1 s1 c2,
    call X args client = (Ok (fresh client), c1)
    ∧ handleFrame X (text_frame X (call_packet_of id args)) server = (Ok tt, s1)
    ∧ (log s1).*2
      = ((log server).*2 ++ [Call h rest; WsSend (ws_id ks) Text (text_frame X reply)])%list
    ∧ handleFrame X (text_frame X reply) c1 = (Ok tt, c2)
    ∧ (log c2).*2
      = ((log c1).*2 ++ [Call (PromiseReject (fresh client)) [received_error e]])%list
    ∧ jobs (sock c2) = jobs (sock client).
Proof.
  intros id args reply Hc Hk Hp Hfree Hid Hsc Hsk Hsp Hh He Hn Hdc Hdr.
  destruct (reply_settles_call X name rest client k reply) as (c1 & c2 & H1 & H2 & H3 & H4 & H5);
    try done.
  assert (Hs := call_served X id name rest h server ks Hsc Hsk Hsp ltac:(lia) Hh Hdc
                  ltac:(intros e' He'; congruence)).
  rewrite He in Hs.
  eexists c1, _, c2. split; [done|]. split; [exact Hs|]. split.
  { cbn [with_log log]. rewrite fmap_app. done. }
  split; [done|]. split; [|done].
  rewrite H4. cbn [reply nack_packet_of getData payload ack_item lookup list_lookup
                   default from_option Datatypes.id wire_error truthy].
  by rewrite received_wire_error.
Qed.

Lemma call_error_round_trip_witness :
  ∃ c1 c2,
    call echo_extern [VStr "boom"] idle_world = (Ok 5%nat, c1)
    ∧ handleFrame echo_extern
        (text_frame echo_extern
           (nack_packet_of 0 (VObj [("message", VStr "bad"); ("code", VNum 42)]))) c1
      = (Ok tt, c2)
    ∧ (log c2).*2
      = ((log c1).*2
         ++ [Call (PromiseReject 5)
               [VErr KError "bad" [("code", VNum 42); ("type", VNull)]]])%list.
Proof.
  destruct (call_error_round_trip echo_extern idle_world server_world "boom" []
              demo_ws (mkWs 9 CbSession CbSession CbSession CbSession) (UserFn 2)
              (VObj [("message", VStr "bad"); ("code", VNum 42)])
              eq_refl eq_refl eq_refl eq_refl ltac:(cbn; lia) eq_refl eq_refl eq_refl
              eq_refl eq_refl eq_refl)
    as (c1 & s1 & c2 & H1 & _ & _ & H3 & H4 & _); [reflexivity | reflexivity |].
  exists c1, c2. repeat split; assumption.
Defined.

(** X14: calls that get no reply.  An inbound call for a name without hook
    raises "Call not found" and changes nothing; when the hook throws
    [null] or [undefined], reading the message of what was thrown raises in
    turn.  In both cases nothing is sent back to the caller. *)
Theorem call_without_reply (X : Extern) (p : Packet) (name : string)
    (rest : list JsVal) (w : World) :
  packet_type p = EVENT ∨ packet_type p = BINARY_EVENT →
  packet_id p ≠ -1 → getData p = VArr (VStr name :: rest) →
  (hooks (sock w) !! name = None →
   handlePacket X p w = (Throw (call_not_found name), w))
  ∧ (∀ h e, hooks (sock w) !! name = Some h →
       apply_fn X h rest = Throw e → is_nullish e = true →
       ∃ t, handlePacket X p w = (Throw t, logged (Call h rest) w)).
Proof.
  intros Ht Hid Hd. rewrite (handlePacket_event_eq X p name rest) by done.
  destruct (Z.eqb_spec (packet_id p) (-1)); [done|]. split.
  - intros Hh. unfold handleCall. cbn [head default from_option Datatypes.id str_of].
    by rewrite (andThen_Ok _ _ _ _ _ (this_eq w)), Hh.
  - intros h e Hh He Hn. rewrite (handleCall_eq X _ name rest h) by done.
    rewrite He. unfold sendError, prop. rewrite Hn. eexists. reflexivity.
Qed.

Lemma call_without_reply_witness :
  handlePacket echo_extern (call_packet_of 3 [VStr "missing"]) server_world
  = (Throw (call_not_found "missing"), server_world).
Proof.
  destruct (call_without_reply echo_extern (call_packet_of 3 [VStr "missing"]) "missing" []
              server_world (or_introl eq_refl) ltac:(discriminate) eq_refl) as [H _].
  exact (H eq_refl).
Defined.

(** X15: the dispatch of a fire-and-forget event whose name is not
    blacklisted hands the arguments to the event bus.  When the bus returns
    nothing is sent; when a listener throws an object, the error is not
    raised in the session but sent to the peer as an ERROR packet with the
    coerced message, code and type. *)
Theorem event_dispatch (X : Extern) (p : Packet) (name : string)
    (rest : list JsVal) (w : World) :
  packet_type p = EVENT ∨ packet_type p = BINARY_EVENT →
  packet_id p = -1 → getData p = VArr (VStr name :: rest) →
  blacklist X name = false →
  let args := VStr name :: rest in
  (∀ v, events_emit X (events (sock w)) args = Ok v →
     handlePacket X p w = (Ok tt, logged (EventsEmit args) w))
  ∧ (∀ e, events_emit X (events (sock w)) args = Throw e → is_nullish e = false →
       handlePacket X p w
       = send (text_frame X (error_packet_of e)) (logged (EventsEmit args) w)).
Proof.
  intros Ht Hid Hd Hb args. rewrite (handlePacket_event_eq X p name rest) by done.
  rewrite Hid. cbn [Z.eqb Pos.eqb]. unfold handleEvent, try_catch.
  cbn [head default from_option Datatypes.id str_of]. rewrite Hb.
  rewrite (andThen_Ok _ _ _ _ _ (this_eq w)).
  rewrite (andThen_Ok _ _ _ _ _ (effect_eq _ w)).
  split.
  - intros v Hv. fold args. by rewrite Hv.
  - intros e He Hn. fold args. rewrite He. unfold throw.
    by rewrite sendError_eq.
Qed.

Lemma event_dispatch_witness :
  handlePacket demo_extern (mkPacket EVENT (-1) 0 [] (VArr [VStr "tick"; VNum 1])) idle_world
  = (Ok tt, logged (EventsEmit [VStr "tick"; VNum 1]) idle_world).
Proof.
  destruct (event_dispatch demo_extern (mkPacket EVENT (-1) 0 [] (VArr [VStr "tick"; VNum 1]))
              "tick" [VNum 1] idle_world (or_introl eq_refl) eq_refl eq_refl eq_refl)
    as [H _].
  exact (H (VBool true) eq_refl).
Defined.

(** X16: an EVENT or BINARY_EVENT packet whose data is not an array, is an
    empty array or does not start with a string is rejected with a type
    error before anything is looked up or dispatched, with or without
    id. *)
Theorem malformed_event_rejected (X : Extern) (p : Packet) (w : World) :
  packet_type p = EVENT ∨ packet_type p = BINARY_EVENT →
  (isArray (getData p) = false →
   handlePacket X p w = (Throw (type_error "args" "array"), w))
  ∧ (getData p = VArr [] →
     handlePacket X p w = (Throw (type_error "args" "array"), w))
  ∧ (∀ v rest, getData p = VArr (v :: rest) → is_string v = false →
     handlePacket X p w = (Throw (type_error "event" "string"), w)).
Proof.
  intros Ht. unfold handlePacket.
  destruct Ht as [-> | ->]; cbv zeta; (split; [|split]).
  1,4: intros Ha; rewrite Ha; by rewrite (andThen_Throw _ _ _ _ _ (enforce_false _ _ _)).
  1,3: intros ->; cbn [isArray];
       rewrite (andThen_Ok _ _ _ _ _ (enforce_true _ _ _));
       by rewrite (andThen_Throw _ _ _ _ _ (enforce_false _ _ _)).
  all: intros v rest -> Hs; cbn [isArray];
       rewrite (andThen_Ok _ _ _ _ _ (enforce_true _ _ _));
       rewrite bool_decide_eq_true_2 by (simpl; lia);
       rewrite (andThen_Ok _ _ _ _ _ (enforce_true _ _ _));
       cbn [head default from_option Datatypes.id]; rewrite Hs;
       by rewrite (andThen_Throw _ _ _ _ _ (enforce_false _ _ _)).
Qed.

Lemma malformed_event_rejected_witness :
  handlePacket demo_extern (mkPacket EVENT 4 0 [] (VArr [VNum 1])) idle_world
  = (Throw (type_error "event" "string"), idle_world).
Proof.
  destruct (malformed_event_rejected demo_extern (mkPacket EVENT 4 0 [] (VArr [VNum 1]))
              idle_world (or_introl eq_refl)) as (_ & _ & H).
  exact (H (VNum 1) [] eq_refl eq_refl).
Defined.

(** X17: an ERROR packet surfaces on the error channel and never touches
    the job table, whatever its id.  The ERROR packet that [sendError]
    builds for a thrown object [e], once decoded, is emitted as an Error
    with the coerced message, code and type of [e].  The Error is handed to
    the listener for [error]; on a session without one, it is thrown by
    [emit]. *)
Theorem error_packet_surfaces (X : Extern) (p : Packet) (e : JsVal) (w : World) :
  packet_type p = ERROR →
  (truthy (getData p) = true → is_object (getData p) = true →
   handlePacket X p w = reported (received_error (getData p)) w)
  ∧ (truthy (getData p) && is_object (getData p) = false →
     handlePacket X p w = (Throw (type_error "error" "object"), w))
  ∧ (packet (sock w) = None → is_nullish e = false →
     Packet_fromString X (DText (Packet_toString X (error_packet_of e)))
     = Ok (error_packet_of e) →
     handleFrame X (text_frame X (error_packet_of e)) w
     = reported (received_error e) w).
Proof.
  intros Ht. split; [|split].
  - intros Htr Ho. unfold handlePacket. rewrite Ht. cbv zeta. rewrite Htr, Ho.
    rewrite (andThen_Ok _ _ _ _ _ (enforce_true _ _ _)).
    rewrite handleError_eq by by apply truthy_not_nullish.
    apply emit_reported.
  - intros Hf. unfold handlePacket. rewrite Ht. cbv zeta. rewrite Hf.
    by rewrite (andThen_Throw _ _ _ _ _ (enforce_false _ _ _)).
  - intros Hp Hn Hdec.
    rewrite (handleMessage_text X _ (error_packet_of e)) by done.
    unfold handlePacket. cbn [error_packet_of packet_type getData payload].
    cbn [wire_error truthy is_object typeof andb].
    rewrite (andThen_Ok _ _ _ _ _ (enforce_true _ _ _)).
    rewrite handleError_eq by done. cbn [Z.eqb Pos.eqb].
    fold (wire_error e). rewrite received_wire_error. apply emit_reported.
Qed.

Lemma error_packet_surfaces_witness :
  handlePacket demo_extern
    (mkPacket ERROR 7 0 [] (VObj [("message", VStr "bad"); ("code", VBool true)]))
    (listening idle_world)
  = (Ok tt, logged (Emit "error" [VErr KError "bad" [("code", VNull); ("type", VNull)]])
              (listening idle_world))
  ∧ handlePacket demo_extern
      (mkPacket ERROR 7 0 [] (VObj [("message", VStr "bad"); ("code", VBool true)]))
      idle_world
    = (Throw (VErr KError "bad" [("code", VNull); ("type", VNull)]),
       logged (Emit "error" [VErr KError "bad" [("code", VNull); ("type", VNull)]])
         idle_world).
Proof.
  split.
  - destruct (error_packet_surfaces demo_extern
                (mkPacket ERROR 7 0 [] (VObj [("message", VStr "bad"); ("code", VBool true)]))
                VNull (listening idle_world) eq_refl) as [H _].
    exact (H eq_refl eq_refl).
  - destruct (error_packet_surfaces demo_extern
                (mkPacket ERROR 7 0 [] (VObj [("message", VStr "bad"); ("code", VBool true)]))
                VNull idle_world eq_refl) as [H _].
    exact (H eq_refl eq_refl).
Defined.

(** ** The API *)

(** X18: [hook] binds one handler per name.  On a name that is neither
    bound nor blacklisted it stores the handler, which is what [hooks]
    returns for the name afterwards, and leaves the other names alone; a
    second [hook] for the name fails with "Hook already bound." and keeps
    the first handler. *)
Theorem hook_binds_once (X : Extern) (name : string) (f g : Fn) (w : World) :
  blacklist X name = false → hooks (sock w) !! name = None →
  ∃ w1, hook X (VStr name) (VFun f) w = (Ok tt, w1)
    ∧ hooks (sock w1) !! name = Some f
    ∧ (∀ other, other ≠ name → hooks (sock w1) !! other = hooks (sock w) !! other)
    ∧ log w1 = log w
    ∧ hook X (VStr name) (VFun g) w1 = (Throw hook_already_bound, w1).
Proof.
  intros Hb Hfree. unfold hook at 1. cbn [is_string is_function str_of].
  rewrite !(andThen_Ok _ _ _ _ _ (enforce_true _ _ _)).
  rewrite (andThen_Ok _ _ _ _ _ (this_eq w)). rewrite Hfree, Hb.
  rewrite bool_decide_eq_false_2 by (by intros [? ?]). cbn [negb assert].
  rewrite !(andThen_Ok (ret tt) _ w tt w eq_refl).
  eexists. split; [reflexivity|]. cbn [sock log with_sock hooks set_hooks].
  split; [apply lookup_insert_eq|]. split; [by intros other Hne; apply lookup_insert_ne|].
  split; [done|].
  unfold hook. cbn [is_string is_function str_of].
  rewrite !(andThen_Ok _ _ _ _ _ (enforce_true _ _ _)).
  rewrite (andThen_Ok _ _ _ _ _ (this_eq _)). cbn [sock with_sock hooks set_hooks].
  rewrite lookup_insert_eq. rewrite bool_decide_eq_true_2 by eauto.
  done.
Qed.

Lemma hook_binds_once_witness :
  ∃ w1, hook demo_extern (VStr "add") (VFun (UserFn 1)) idle_world = (Ok tt, w1)
    ∧ hooks (sock w1) !! "add" = Some (UserFn 1)
    ∧ hook demo_extern (VStr "add") (VFun (UserFn 2)) w1 = (Throw hook_already_bound, w1).
Proof.
  destruct (hook_binds_once demo_extern "add" (UserFn 1) (UserFn 2) idle_world
              eq_refl eq_refl) as (w1 & H1 & H2 & _ & _ & H3).
  exists w1. repeat split; assumption.
Defined.

(** X19: [listen] adds the listener after those already registered and
    changes nothing else; unlike [hook] it accepts a name that already has
    listeners, and the same listener twice. *)
Theorem listen_appends (X : Extern) (name : string) (f : Fn) (w : World) :
  blacklist X name = false →
  listen X (VStr name) (VFun f) w
  = (Ok tt, with_sock (set_events (events (sock w) ++ [(name, f)]) (sock w)) w)
  ∧ (listen X (VStr name) (VFun f) >> listen X (VStr name) (VFun f)) w
    = (Ok tt, with_sock (set_events (events (sock w) ++ [(name, f); (name, f)]) (sock w)) w).
Proof.
  intros Hb.
  assert (∀ w', listen X (VStr name) (VFun f) w'
                = (Ok tt, with_sock (set_events (events (sock w') ++ [(name, f)]) (sock w')) w'))
    as Hl.
  { intros w'. unfold listen. cbn [is_string is_function str_of].
    rewrite !(andThen_Ok _ _ _ _ _ (enforce_true _ _ _)). rewrite Hb. cbn [negb assert].
    by rewrite (andThen_Ok (ret tt) _ w' tt w' eq_refl). }
  split; [apply Hl|]. rewrite (andThen_Ok _ _ _ _ _ (Hl w)), Hl.
  cbn [with_sock sock clock fresh log events set_events]. by rewrite <- app_assoc.
Qed.

Lemma listen_appends_witness :
  listen demo_extern (VStr "tick") (VFun (UserFn 3)) idle_world
  = (Ok tt, with_sock (set_events [("tick", UserFn 3)] (sock idle_world)) idle_world).
Proof.
  exact (proj1 (listen_appends demo_extern "tick" (UserFn 3) idle_world eq_refl)).
Defined.

(** X20: the API checks its arguments before it acts.  [fire] and [call]
    without arguments or with a first argument that is not a string, and
    [listen] and [hook] with an event that is not a string or a handler
    that is not a function, raise a type error and change nothing; in
    particular a refused [call] consumes no sequence number. *)
Theorem api_rejects_bad_arguments (X : Extern) (w : World) :
  (∀ args, names_event args = false →
     fire X args w = (Throw (type_error "event" "string"), w)
     ∧ call X args w = (Throw (type_error "event" "string"), w))
  ∧ (∀ event handler, is_string event = false →
       listen X event handler w = (Throw (type_error "event" "string"), w)
       ∧ hook X event handler w = (Throw (type_error "event" "string"), w))
  ∧ (∀ event handler, is_string event = true → is_function handler = false →
       listen X event handler w = (Throw (type_error "handler" "function"), w)
       ∧ hook X event handler w = (Throw (type_error "handler" "function"), w)).
Proof.
  split; [|split].
  - intros args Ha. unfold fire, call.
    destruct args as [|v rest].
    + split; by rewrite (andThen_Throw _ _ _ _ _ (enforce_false _ _ _)).
    + rewrite bool_decide_eq_true_2 by (simpl; lia).
      rewrite !(andThen_Ok _ _ _ _ _ (enforce_true _ _ _)).
      cbn [head default from_option Datatypes.id].
      assert (is_string v = false) as -> by (by destruct v).
      split; by rewrite (andThen_Throw _ _ _ _ _ (enforce_false _ _ _)).
  - intros event handler He. unfold listen, hook. rewrite He.
    split; by rewrite (andThen_Throw _ _ _ _ _ (enforce_false _ _ _)).
  - intros event handler He Hh. unfold listen, hook. rewrite He, Hh.
    rewrite !(andThen_Ok _ _ _ _ _ (enforce_true _ _ _)).
    split; by rewrite (andThen_Throw _ _ _ _ _ (enforce_false _ _ _)).
Qed.

Lemma api_rejects_bad_arguments_witness :
  call demo_extern [VNum 1; VStr "add"] idle_world
  = (Throw (type_error "event" "string"), idle_world).
Proof.
  destruct (api_rejects_bad_arguments demo_extern idle_world) as [H _].
  exact (proj2 (H [VNum 1; VStr "add"] eq_refl)).
Defined.

(** ** Invariants of a run *)

Section Keeps.

Context (P : Socket → Prop).

Lemma keeps_ret {A} (a : A) : keeps P (ret a).
Proof. by intros w. Qed.

Lemma keeps_throw {A} e : keeps P (@throw A e).
Proof. by intros w. Qed.

Lemma keeps_this : keeps P this.
Proof. by intros w. Qed.

Lemma keeps_Date_now : keeps P Date_now.
Proof. by intros w. Qed.

Lemma keeps_gensym : keeps P gensym.
Proof. by intros w. Qed.

Lemma keeps_effect e : keeps P (effect e).
Proof. by intros w. Qed.

Lemma keeps_modify f : (∀ s, P s → P (f s)) → keeps P (modify f).
Proof. intros Hf w Hw. by apply Hf. Qed.

Lemma keeps_andThen {A B} (m : M A) (k : A → M B) :
  keeps P m → (∀ a, keeps P (k a)) → keeps P (andThen m k).
Proof.
  intros Hm Hk w Hw. unfold andThen. specialize (Hm w Hw).
  destruct (m w) as [[a|e] w1]; [by apply Hk | done].
Qed.

(** After [let! s := this], [s] is a session that has the property. *)
Lemma keeps_andThen_this {B} (k : Socket → M B) :
  (∀ s, P s → keeps P (k s)) → keeps P (andThen this k).
Proof. intros Hk w Hw. by apply (Hk (sock w) Hw w). Qed.

Lemma keeps_try_catch {A} (m : M A) (h : JsVal → M A) :
  keeps P m → (∀ e, keeps P (h e)) → keeps P (try_catch m h).
Proof.
  intros Hm Hh w Hw. unfold try_catch. specialize (Hm w Hw).
  destruct (m w) as [[a|e] w1]; [done | by apply Hh].
Qed.

Lemma keeps_for_of {A} (l : list A) (body : A → M unit) :
  (∀ x, keeps P (body x)) → keeps P (for_of l body).
Proof.
  intros Hb. induction l as [|x l IH]; simpl; [apply keeps_ret|].
  apply keeps_andThen; [apply Hb | by intros _].
Qed.

Lemma keeps_when b m : keeps P m → keeps P (when b m).
Proof. destruct b; [done|]. intros _. apply keeps_ret. Qed.

Lemma keeps_enforce b n t : keeps P (enforce b n t).
Proof. unfold enforce. destruct (negb b); [apply keeps_throw | apply keeps_ret]. Qed.

Lemma keeps_assert b m : keeps P (assert b m).
Proof. unfold assert. destruct (negb b); [apply keeps_throw | apply keeps_ret]. Qed.

Lemma keeps_prop v k : keeps P (prop v k).
Proof. unfold prop. destruct (is_nullish v); [apply keeps_throw | apply keeps_ret]. Qed.

End Keeps.

(** The invariants of a run are properties of the job table, of
    [sequence], of [destroyed] and of the presence of a listener for
    [error] that the assignments of the methods keep. *)
Section Invariant.

Context (P : Socket → Prop).
Hypothesis P_ext : ∀ s s',
  jobs s' = jobs s → sequence s' = sequence s → destroyed s' = destroyed s →
  has_listener "error" s' = has_listener "error" s →
  P s → P s'.
Hypothesis P_delete : ∀ s0 s id,
  P s0 → P s → P (set_jobs (Map_delete id (jobs s0)) s).
Hypothesis P_insert : ∀ s id job, P s → P (set_jobs (Map_set id job (jobs s)) s).
Hypothesis P_reset : ∀ s, P s → P (set_sequence 0 s).
Hypothesis P_next : ∀ s, P s → P (set_sequence (to_uint32 (sequence s + 1)) s).
Hypothesis P_destroyed : ∀ s, P s → P (set_destroyed true s).
Hypothesis P_on : ∀ s name l, P s → P (set_listeners (listeners s ++ [(name, l)]) s).
Hypothesis P_swallow : ∀ s, P s → P (set_listeners [("error", Swallow)] s).

Create HintDb keeps discriminated.
#[local] Hint Resolve keeps_ret keeps_throw keeps_this keeps_Date_now keeps_gensym
  keeps_effect keeps_enforce keeps_assert keeps_prop : keeps.
#[local] Hint Extern 1 (keeps _ (andThen this _)) =>
  apply keeps_andThen_this; intros ? ? : keeps.
#[local] Hint Extern 2 (keeps _ (andThen _ _)) =>
  apply keeps_andThen; [|intros ?] : keeps.
#[local] Hint Extern 2 (keeps _ (try_catch _ _)) =>
  apply keeps_try_catch; [|intros ?] : keeps.
#[local] Hint Extern 2 (keeps _ (for_of _ _)) =>
  apply keeps_for_of;
  let x := fresh "x" in intros x; try destruct x as [? ?]; cbv beta iota : keeps.
#[local] Hint Extern 2 (keeps _ (when _ _)) => apply keeps_when : keeps.
#[local] Hint Extern 4 (keeps _ (match ?x with _ => _ end)) => destruct x : keeps.

(** The side condition of an assignment. *)
Ltac assignment_keeps :=
  let s := fresh "s" in
  let Hs := fresh "Hs" in
  intros s Hs;
  first
    [ by apply (P_ext s)
    | by apply P_delete
    | by apply P_reset
    | by apply P_destroyed
    | by apply P_on ].

#[local] Hint Extern 2 (keeps _ (modify _)) =>
  apply keeps_modify; assignment_keeps : keeps.

Ltac keeps_tac := eauto 60 with keeps.

Lemma inv_send frame : keeps P (send frame).
Proof. unfold send. keeps_tac. Qed.
#[local] Hint Resolve inv_send : keeps.

Lemma inv_sendPacket X p : keeps P (sendPacket X p).
Proof. unfold sendPacket, sendMessage, sendBinary, sendFrame. keeps_tac. Qed.
#[local] Hint Resolve inv_sendPacket : keeps.

Lemma inv_sendError X id e : keeps P (sendError X id e).
Proof. unfold sendError. keeps_tac. Qed.

Lemma inv_sendAck X id v : keeps P (sendAck X id v).
Proof. unfold sendAck. keeps_tac. Qed.
#[local] Hint Resolve inv_sendError inv_sendAck : keeps.

Lemma inv_reject_job id job : keeps P (reject_job id job).
Proof. unfold reject_job. keeps_tac. Qed.
#[local] Hint Resolve inv_reject_job : keeps.

Lemma inv_close : keeps P close.
Proof. unfold close. keeps_tac. Qed.
#[local] Hint Resolve inv_close : keeps.

Lemma inv_emit name args : keeps P (emit name args).
Proof. unfold emit. keeps_tac. Qed.

Lemma inv_on name l : keeps P (on name l).
Proof. unfold on. keeps_tac. Qed.

(** [destroy] removes every listener and registers its own for [error]
    at once. *)
Lemma inv_relisten : keeps P (removeAllListeners >> on_error_swallow).
Proof. intros w Hw. by apply (P_swallow (sock w)). Qed.
#[local] Hint Resolve inv_emit inv_on inv_relisten : keeps.

Lemma inv_destroy : keeps P destroy.
Proof. unfold destroy, stop. keeps_tac. Qed.
#[local] Hint Resolve inv_destroy : keeps.

Lemma inv_reconnect : keeps P reconnect.
Proof. unfold reconnect, new_WebSocket, bind. keeps_tac. Qed.
#[local] Hint Resolve inv_reconnect : keeps.

Lemma inv_destroy_or_close : keeps P destroy_or_close.
Proof. unfold destroy_or_close. keeps_tac. Qed.
#[local] Hint Resolve inv_destroy_or_close : keeps.

Lemma inv_stall : keeps P stall.
Proof. unfold stall, expire_job, error, sendPing, sendFrame. keeps_tac. Qed.

Lemma inv_onOpen X : keeps P (onOpen X).
Proof.
  unfold onOpen, sendHandshake, sendConnect, sendOpen, sendFrame. keeps_tac.
Qed.

Lemma inv_onError message : keeps P (onError message).
Proof. unfold onError. keeps_tac. Qed.

Lemma inv_onClose X event : keeps P (onClose X event).
Proof. unfold onClose. keeps_tac. Qed.

Lemma inv_handleAck id data : keeps P (handleAck id data).
Proof. unfold handleAck. keeps_tac. Qed.

Lemma inv_handleError id err : keeps P (handleError id err).
Proof. unfold handleError. keeps_tac. Qed.

Lemma inv_handleCall X id args : keeps P (handleCall X id args).
Proof. unfold handleCall. keeps_tac. Qed.

Lemma inv_handleEvent X args : keeps P (handleEvent X args).
Proof. unfold handleEvent. keeps_tac. Qed.
#[local] Hint Resolve inv_handleAck inv_handleError inv_handleCall inv_handleEvent : keeps.

Lemma inv_handlePacket X p : keeps P (handlePacket X p).
Proof. unfold handlePacket, handleConnect, handleDisconnect. keeps_tac. Qed.
#[local] Hint Resolve inv_handlePacket : keeps.

Lemma inv_handleFrame X f : keeps P (handleFrame X f).
Proof.
  unfold handleFrame, handleOpen, handleClose, handlePing, handlePong, handleMessage,
    handleUpgrade, handleNoop, sendClose, sendPong, sendFrame, error.
  keeps_tac.
Qed.

Lemma inv_onFrame X f : keeps P (onFrame X f).
Proof. unfold onFrame. apply keeps_try_catch; [apply inv_handleFrame | keeps_tac]. Qed.

Lemma inv_fire X args : keeps P (fire X args).
Proof. unfold fire, sendEvent. keeps_tac. Qed.

Lemma inv_hook X e h : keeps P (hook X e h).
Proof. unfold hook. keeps_tac. Qed.

Lemma inv_listen X e h : keeps P (listen X e h).
Proof. unfold listen. keeps_tac. Qed.

(** [call] passes through a state in which [sequence] may be 2^32, before
    [>>>= 0] brings it back into range. *)
Lemma inv_call X args : keeps P (call X args).
Proof.
  intros w Hw.
  destruct args as [|v rest]; [done|].
  destruct v; try done.
  rewrite call_eq. cbv zeta.
  set (w1 := with_sock _ w).
  assert (P (sock w1)) as Hw1 by by apply P_next.
  destruct (Map_has _ _); [done|].
  pose proof (inv_send (call_frame X (sequence (sock w)) (VStr s :: rest)) w1 Hw1) as Hs.
  destruct (send _ w1) as [[[]|e] w2]; [|done].
  by apply P_insert.
Qed.

Lemma inv_step X i w : P (sock w) → P (sock (step X i w)).
Proof.
  intros Hw. destruct i; cbn [step].
  - by apply inv_onOpen.
  - by apply inv_onFrame.
  - by apply inv_onError.
  - by apply inv_onClose.
  - by apply inv_stall.
  - by apply inv_call.
  - by apply inv_fire.
  - by apply inv_hook.
  - by apply inv_listen.
  - by apply inv_on.
  - by apply inv_destroy.
Qed.

Lemma inv_run X inputs : ∀ w, P (sock w) → P (sock (run X inputs w)).
Proof.
  unfold run. induction inputs as [|i inputs IH]; intros w Hw; [done|].
  cbn [foldl]. apply IH. by apply inv_step.
Qed.

End Invariant.

Lemma to_uint32_range x : 0 ≤ to_uint32 x < 2 ^ 32.
Proof. unfold to_uint32. apply Z.mod_pos_bound. lia. Qed.

(** X21: the job ids stay unique and [sequence] stays an unsigned 32-bit
    integer, whatever reaches the session: transport events, frames, ticks
    and calls of the API, in any order.  In particular this holds in every
    state a new session can reach. *)
Theorem run_keeps_session_ok (X : Extern) (inputs : list Input) (w : World) :
  session_ok (sock w) →
  session_ok (sock (run X inputs w))
  ∧ ∀ c n l, session_ok (sock (run X inputs (mkWorld new_Socket c n l))).
Proof.
  assert (∀ w', session_ok (sock w') → session_ok (sock (run X inputs w'))) as H.
  { apply inv_run; unfold session_ok; try done.
    - intros s s' -> -> _ _. done.
    - intros s0 s id [Hwf0 _] [_ Hseq]. split; [by apply Map_wf_delete | done].
    - intros s id job [Hwf Hseq]. split; [by apply Map_wf_set | done].
    - intros s [Hwf _]. split; [done | cbn; lia].
    - intros s [Hwf _]. split; [done | apply to_uint32_range]. }
  intros Hw. split; [by apply H|]. intros c n l. apply H. split; [done|]. cbn. lia.
Qed.

Lemma run_keeps_session_ok_witness :
  session_ok (sock (run demo_extern
                      [ApiCall [VStr "add"]; TransportOpen; Tick 700000;
                       TransportFrame pong_frame; ApiCall [VStr "add"]]
                      (world0 (set_ws (Some demo_ws) (set_sequence (2 ^ 32 - 1) new_Socket))))).
Proof.
  apply (run_keeps_session_ok demo_extern). split; [reflexivity | cbn; lia].
Defined.

(** X22: nothing brings a destroyed session back: once [destroyed] is set
    it stays set, whatever reaches the session afterwards. *)
Theorem destroyed_is_permanent (X : Extern) (inputs : list Input) (w : World) :
  destroyed (sock w) = true → destroyed (sock (run X inputs w)) = true.
Proof.
  apply (inv_run (λ s, destroyed s = true)); try done.
  by intros s s' _ _ -> _.
Qed.

Lemma destroyed_is_permanent_witness :
  destroyed (sock (run demo_extern
                     [TransportOpen; ApiCall [VStr "add"]; TransportClose (mkCloseEvent 1006 "")]
                     torn_world)) = true.
Proof. apply (destroyed_is_permanent demo_extern). reflexivity. Defined.

(** ** The frame listener *)

Lemma has_listener_on name l s :
  has_listener "error" s = true →
  has_listener "error" (set_listeners (listeners s ++ [(name, l)]) s) = true.
Proof.
  unfold has_listener, set_listeners. cbn [listeners].
  rewrite existsb_app. by intros ->.
Qed.

(** No method leaves a session that has a listener for [error] without
    one: [destroy] removes the listeners and registers its own. *)
Lemma handleFrame_keeps_listener X f :
  keeps (λ s, has_listener "error" s = true) (handleFrame X f).
Proof.
  apply inv_handleFrame; try done.
  by intros s s' _ _ _ ->.
Qed.





(** ** Buffering, reconnection and the timer *)

(** [onOpen] in closed form. *)
Lemma onOpen_eq X w k :
  ws (sock w) = Some k →
  let s1 := set_connected true (sock w) in
  let first := if inbound (sock w) then handshake_frames X (sock w) else [] in
  onOpen X w
  = (Ok tt,
     mkWorld (set_buffer [] s1) (clock w) (fresh w)
       (log w ++ map (λ f, (s1, transmit s1 k f)) (first ++ buffer (sock w))
        ++ [(set_buffer [] s1, Emit "open" [])])).
Proof.
  intros Hk s1 first. set (w1 := with_sock s1 w).
  assert (when (inbound (sock w)) (sendHandshake X >> sendConnect X) w1
          = (Ok tt, with_log (log w ++ map (λ f, (s1, transmit s1 k f)) first) w1)) as Hh.
  { subst first. destruct (inbound (sock w)); cbn [when].
    - unfold andThen at 1. unfold sendHandshake, andThen at 1. cbn [this].
      unfold sendOpen, sendFrame. rewrite (send_connected _ w1 k) by done.
      unfold sendConnect. rewrite sendPacket_flat by done.
      rewrite (send_connected _ _ k) by done.
      unfold logged, with_log. cbn. by rewrite <- app_assoc.
    - cbn [map]. rewrite app_nil_r. by destruct w. }
  unfold onOpen.
  rewrite (andThen_Ok _ _ _ _ _ (modify_eq _ w)). fold s1 w1.
  rewrite (andThen_Ok _ _ _ _ _ (this_eq w1)).
  change (inbound (sock w1)) with (inbound (sock w)).
  rewrite (andThen_Ok _ _ _ _ _ Hh).
  rewrite (andThen_Ok _ _ _ _ _ (this_eq _)).
  erewrite andThen_Ok by (by apply (flush_connected _ _ k)).
  unfold w1, with_log, with_sock, emit, effect, modify, andThen.
  cbn [sock log clock fresh]. rewrite map_app, <- !app_assoc. done.
Qed.

Lemma transmit_effects (s s' : Socket) k (l : list Frame) :
  binary s = binary s' →
  (map (λ f, (s, transmit s k f)) l).*2 = map (transmit s' k) l.
Proof.
  intros Hb. induction l as [|f l IH]; [done|].
  cbn [map]. rewrite fmap_cons, IH. cbn [snd]. unfold transmit. by rewrite Hb.
Qed.

(** X23: nothing sent before the transport opens is lost or reordered.
    The frames submitted to a session that is not connected are all
    transmitted when the transport opens, after those already buffered and
    in the order of submission (behind the handshake on an inbound
    session), and the buffer is empty afterwards. *)
Theorem buffered_frames_flushed_on_open (X : Extern) (fs : list Frame) (w : World)
    (k : WebSocket) :
  connected (sock w) = false → ws (sock w) = Some k →
  ∃ w', (for_of fs send >> onOpen X) w = (Ok tt, w')
    ∧ (log w').*2
      = ((log w).*2
         ++ map (transmit (sock w) k)
              ((if inbound (sock w) then handshake_frames X (sock w) else [])
               ++ buffer (sock w) ++ fs)
         ++ [Emit "open" []])%list
    ∧ buffer (sock w') = []
    ∧ connected (sock w') = true.
Proof.
  intros Hc Hk. rewrite (andThen_Ok _ _ _ _ _ (buffer_all fs w Hc)).
  rewrite (onOpen_eq X _ k) by done. cbv zeta.
  eexists. split; [reflexivity|]. cbn [sock log with_sock clock fresh].
  split; [|done].
  change (inbound (set_buffer _ (sock w))) with (inbound (sock w)).
  change (handshake_frames X (set_buffer _ (sock w))) with (handshake_frames X (sock w)).
  change (buffer (set_buffer ?b (sock w))) with b.
  set (L := ((if inbound (sock w) then handshake_frames X (sock w) else [])
             ++ buffer (sock w) ++ fs)%list).
  rewrite (fmap_app snd (log w)), (fmap_app snd (map _ L)).
  by rewrite (transmit_effects _ (sock w)).
Qed.

Lemma buffered_frames_flushed_on_open_witness :
  ∃ w', (for_of [ping_frame; close_frame] send >> onOpen demo_extern) waiting_session
        = (Ok tt, w')
    ∧ (log w').*2 = [WsSend 0 Text ping_frame; WsSend 0 Text close_frame; Emit "open" []].
Proof.
  destruct (buffered_frames_flushed_on_open demo_extern [ping_frame; close_frame]
              waiting_session demo_ws eq_refl eq_refl) as (w' & H1 & H2 & _).
  exists w'. split; [exact H1 | exact H2].
Defined.

(** X24: [reconnect] closes the old transport before it creates the new
    one, to the same URL, and installs the callbacks of the session on the
    new one.  Pending jobs are rejected and [sequence] restarts at 0, while
    the send buffer, the hooks and the listeners survive. *)
Theorem reconnect_replaces_transport (w : World) :
  Map_wf (jobs (sock w)) = true →
  ∃ w', reconnect w = (Ok tt, w')
    ∧ ws (sock w') = Some (mkWs (fresh w) CbSession CbSession CbSession CbSession)
    ∧ (log w').*2
      = ((log w).*2 ++ close_effects (sock w) ++ [WsNew (fresh w) (url (sock w))])%list
    ∧ disconnected (sock w')
    ∧ time (sock w') = clock w
    ∧ buffer (sock w') = buffer (sock w)
    ∧ hooks (sock w') = hooks (sock w)
    ∧ events (sock w') = events (sock w)
    ∧ fresh w' = S (fresh w).
Proof.
  intros Hwf.
  destruct (close_outcome w Hwf)
    as (w1 & Hc & Hdis & Ht & Hl & _ & (_ & _ & Hb & _ & Hh & He) & (Hclk & Hfr)).
  unfold reconnect. rewrite (andThen_Ok _ _ _ _ _ Hc).
  rewrite (andThen_Ok _ _ _ _ _ (this_eq w1)).
  unfold new_WebSocket, bind.
  assert (url (sock w1) = url (sock w)) as Hurl.
  { rewrite close_eq in Hc by done. cbv zeta in Hc.
    destruct (ws (sock w)); injection Hc as <-; done. }
  eexists. split.
  { unfold andThen, gensym, effect, modify, this, assert. cbn. reflexivity. }
  cbn [sock log with_sock clock fresh]. rewrite Hfr, Hurl.
  split; [done|]. split.
  { rewrite fmap_app, Hl. cbn [fmap list_fmap snd]. by rewrite <- app_assoc. }
  destruct Hdis as (? & ? & ? & ? & ?). unfold disconnected. cbn.
  repeat split; assumption.
Qed.

Lemma reconnect_replaces_transport_witness :
  ∃ w', reconnect live_world = (Ok tt, w')
    ∧ (log w').*2
      = [Call (PromiseReject 7) [new_Error "Job timed out."];
         Call (PromiseReject 8) [new_Error "Job timed out."];
         WsClose 0;
         WsNew 5 "ws://127.0.0.1:80/socket.io/?transport=websocket"].
Proof.
  destruct (reconnect_replaces_transport live_world eq_refl) as (w' & H1 & _ & H2 & _).
  exists w'. split; [exact H1 | exact H2].
Defined.

(** X25: a CLOSE frame from the peer is answered with a CLOSE frame and
    followed by the teardown (destroy on an inbound session, close on an
    outbound one).  A connected session transmits the answer before it
    closes its transport; a session that is not connected puts the answer
    in its buffer, where an outbound session keeps it and an inbound one
    drops it with the rest of the buffer. *)
Theorem close_frame_answered (X : Extern) (f : Frame) (w : World) :
  frame_type f = CLOSE → destroyed (sock w) = false →
  Map_wf (jobs (sock w)) = true →
  (connected (sock w) = true → is_Some (ws (sock w))) →
  ∃ w', handleFrame X f w = (Ok tt, w')
    ∧ disconnected (sock w')
    ∧ destroyed (sock w') = inbound (sock w)
    ∧ (∀ k, connected (sock w) = true → ws (sock w) = Some k →
         (log w').*2
         = ((log w).*2 ++ WsSend (ws_id k) Text close_frame :: teardown_effects (sock w))%list
         ∧ buffer (sock w') = if inbound (sock w) then [] else buffer (sock w))
    ∧ (connected (sock w) = false →
         (log w').*2 = ((log w).*2 ++ teardown_effects (sock w))%list
         ∧ buffer (sock w')
           = if inbound (sock w) then [] else (buffer (sock w) ++ [close_frame])%list).
Proof.
  intros Ht Hd Hwf Hws. unfold handleFrame. rewrite Ht. unfold handleClose.
  rewrite (andThen_Ok _ _ _ _ _ (this_eq w)). unfold sendClose, sendFrame.
  fold close_frame.
  destruct (connected (sock w)) eqn:Hc.
  - destruct (Hws eq_refl) as [k Hk].
    assert (Hs := send_connected close_frame w k Hc Hk).
    destruct (inbound (sock w)) eqn:Hi; rewrite (andThen_Ok _ _ _ _ _ Hs).
    + destruct (destroy_outcome (logged (transmit (sock w) k close_frame) w) Hd Hwf)
        as (w' & Hw' & Hdis & Hd' & Hb & _ & Hl & _).
      exists w'. split; [done|]. split; [done|]. split; [done|]. split; [|done].
      intros k' _ Hk'. rewrite Hk in Hk'. injection Hk' as <-.
      split; [|done]. rewrite Hl. unfold teardown_effects.
      cbn [logged with_log log sock]. rewrite Hi, fmap_app. by rewrite <- app_assoc.
    + destruct (close_outcome (logged (transmit (sock w) k close_frame) w) Hwf)
        as (w' & Hw' & Hdis & _ & Hl & _ & (Hd' & _ & Hb & _) & _).
      exists w'. split; [done|]. split; [done|]. split; [by rewrite Hd'|]. split; [|done].
      intros k' _ Hk'. rewrite Hk in Hk'. injection Hk' as <-.
      split; [|done]. rewrite Hl. unfold teardown_effects.
      cbn [logged with_log log sock]. rewrite Hi, fmap_app. by rewrite <- app_assoc.
  - assert (Hs := send_disconnected close_frame w Hc).
    destruct (inbound (sock w)) eqn:Hi; rewrite (andThen_Ok _ _ _ _ _ Hs).
    + destruct (destroy_outcome
                  (with_sock (set_buffer (buffer (sock w) ++ [close_frame]) (sock w)) w)
                  Hd Hwf) as (w' & Hw' & Hdis & Hd' & Hb & _ & Hl & _).
      exists w'. split; [done|]. split; [done|]. split; [done|]. split; [done|].
      intros _. split; [|done]. rewrite Hl. unfold teardown_effects. by rewrite Hi.
    + destruct (close_outcome
                  (with_sock (set_buffer (buffer (sock w) ++ [close_frame]) (sock w)) w)
                  Hwf) as (w' & Hw' & Hdis & _ & Hl & _ & (Hd' & _ & Hb & _) & _).
      exists w'. split; [done|]. split; [done|]. split; [by rewrite Hd'|]. split; [done|].
      intros _. split; [|done]. rewrite Hl. unfold teardown_effects. by rewrite Hi.
Qed.

Lemma close_frame_answered_witness :
  ∃ w', handleFrame demo_extern close_frame live_world = (Ok tt, w')
    ∧ (log w').*2
      = [WsSend 0 Text close_frame;
         Call (PromiseReject 7) [new_Error "Job timed out."];
         Call (PromiseReject 8) [new_Error "Job timed out."];
         WsClose 0].
Proof.
  destruct (close_frame_answered demo_extern close_frame live_world eq_refl eq_refl eq_refl
              ltac:(by eexists)) as (w' & H1 & _ & _ & H2 & _).
  exists w'. split; [exact H1|]. exact (proj1 (H2 demo_ws eq_refl eq_refl)).
Defined.

Lemma bind_eq w k :
  ws (sock w) = Some k →
  bind w = (Ok tt, with_sock (set_ws (Some (session_callbacks k)) (sock w)) w).
Proof.
  intros Hk. unfold bind. rewrite (andThen_Ok _ _ _ _ _ (this_eq w)), Hk.
  rewrite bool_decide_eq_true_2 by eauto.
  by rewrite (andThen_Ok (assert true "") _ w tt w eq_refl).
Qed.

Lemma start_eq w :
  is_Some (ws (sock w)) →
  start w =
    match timer (sock w) with
    | None => (Ok tt, mkWorld (set_timer (Some (fresh w)) (sock w)) (clock w) (S (fresh w))
                        (log w ++ [(sock w, SetInterval (fresh w))]))
    | Some _ => (Throw (VErr KAssertionError "" []), w)
    end.
Proof.
  intros Hk. unfold start. rewrite (andThen_Ok _ _ _ _ _ (this_eq w)).
  rewrite bool_decide_eq_true_2 by done.
  rewrite (andThen_Ok (assert true "") _ w tt w eq_refl).
  destruct (timer (sock w)).
  - by rewrite bool_decide_eq_false_2.
  - rewrite bool_decide_eq_true_2 by done.
    rewrite (andThen_Ok (assert true "") _ w tt w eq_refl).
    unfold andThen, gensym, effect, modify. by destruct w.
Qed.

(** X26: [init] stores the time, installs the callbacks of the session on
    the transport and starts the timer.  It needs a transport and no timer:
    the timer cannot be started twice, and the first [destroy] clears the
    timer that [init] started. *)
Theorem init_starts_the_timer (w : World) (k : WebSocket) :
  ws (sock w) = Some k → timer (sock w) = None →
  ∃ w', init w = (Ok tt, w')
    ∧ time (sock w') = clock w
    ∧ ws (sock w') = Some (session_callbacks k)
    ∧ timer (sock w') = Some (fresh w)
    ∧ (log w').*2 = ((log w).*2 ++ [SetInterval (fresh w)])%list
    ∧ (∃ e, start w' = (Throw e, w'))
    ∧ (destroyed (sock w) = false → Map_wf (jobs (sock w)) = true →
       ClearTimeout (fresh w) ∈ (log (destroy w').2).*2).
Proof.
  intros Hk Ht.
  assert (∃ w', init w = (Ok tt, w')
            ∧ w' = mkWorld (set_timer (Some (fresh w))
                              (set_ws (Some (session_callbacks k))
                                 (set_time (clock w) (sock w))))
                     (clock w) (S (fresh w))
                     (log w ++ [(set_ws (Some (session_callbacks k))
                                   (set_time (clock w) (sock w)),
                                 SetInterval (fresh w))])) as (w' & Hi & Hw').
  { eexists. split; [|reflexivity]. unfold init.
    rewrite (andThen_Ok Date_now _ w (clock w) w eq_refl).
    rewrite (andThen_Ok _ _ _ _ _ (modify_eq _ w)).
    rewrite (andThen_Ok _ _ _ _ _
               (bind_eq (with_sock (set_time (clock w) (sock w)) w) k Hk)).
    rewrite start_eq by (by eexists).
    cbn [with_sock sock timer set_ws set_time]. by rewrite Ht. }
  exists w'. split; [done|]. subst w'. cbn [sock log clock fresh].
  split; [done|]. split; [done|]. split; [done|].
  split; [by rewrite fmap_app|]. split.
  - eexists. by rewrite start_eq by (by eexists).
  - intros Hd Hwf.
    match goal with |- context [destroy ?w0] =>
      destruct (destroy_outcome w0 Hd Hwf) as (w2 & Hw2 & _ & _ & _ & _ & Hl & _)
    end.
    rewrite Hw2. cbn [snd]. rewrite Hl. unfold destroy_effects.
    cbn [timer set_timer sock]. rewrite !elem_of_app. right. right. left.
    apply list_elem_of_here.
Qed.

Lemma init_starts_the_timer_witness :
  ∃ w', init waiting_session = (Ok tt, w')
    ∧ timer (sock w') = Some 5%nat
    ∧ (log w').*2 = [SetInterval 5].
Proof.
  destruct (init_starts_the_timer waiting_session demo_ws eq_refl eq_refl)
    as (w' & H1 & _ & _ & H2 & H3 & _).
  exists w'. repeat split; assumption.
Defined.
